(** * pyash: the ledger parser and aggregation engine of [pyash/__init__.py]

    A shallow embedding of the module and the properties proved about it.

    Conventions of the embedding.
    - A Python [str] is a list of Unicode code points ([N]).  The white-space
      class is the one of [str.isspace]; digits and case mappings are those
      of the ASCII range (other code points are no digits and are left
      unchanged by [upper] and [lower]).
    - A [dict] is an insertion-ordered association list, as Python's is.
    - A [Decimal] is a finite decimal [(-1)^sign * coefficient * 10^exponent];
      its arithmetic is exact (the 28 digits of the default context are taken
      not to be exceeded).  The special values (infinities, NaNs) are not
      represented: the constructor is taken to refuse them.
    - [strftime] writes the year with four digits.
    - A generator is the list of what it yields; an exception is a [Raise]
      result.  A [StopIteration] that escapes the body of a generator is a
      [RuntimeError], as in every Python from 3.7 on (PEP 479). *)

From Stdlib Require Import String Ascii.
From Stdlib Require Import List NArith ZArith QArith Qpower Lia Bool Arith
  Permutation Sorted DecimalN DecimalPos.
Import ListNotations.

Close Scope Q_scope.
Open Scope nat_scope.

(** ** Strings *)

Definition char := N.
Bind Scope N_scope with char.
Definition pystr := list char.

(** A literal of this file (UTF-8 bytes) as a Python string. *)
Fixpoint utf8_decode (bs : list N) : pystr :=
  match bs with
  | [] => []
  | b :: r =>
      if (b <? 192)%N then b :: utf8_decode r
      else if (b <? 224)%N then
        match r with
        | b1 :: r' => ((b - 192) * 64 + (b1 - 128))%N :: utf8_decode r'
        | _ => []
        end
      else if (b <? 240)%N then
        match r with
        | b1 :: b2 :: r' =>
            ((b - 224) * 4096 + (b1 - 128) * 64 + (b2 - 128))%N
              :: utf8_decode r'
        | _ => []
        end
      else
        match r with
        | b1 :: b2 :: b3 :: r' =>
            ((b - 240) * 262144 + (b1 - 128) * 4096 + (b2 - 128) * 64
             + (b3 - 128))%N :: utf8_decode r'
        | _ => []
        end
  end.

Definition py (s : string) : pystr :=
  utf8_decode (map N_of_ascii (list_ascii_of_string s)).

Definition EURO : char := 8364%N.      (* '€' *)
Definition NL : char := 10%N.
Definition SP : char := 32%N.

Fixpoint eqb_str (a b : pystr) : bool :=
  match a, b with
  | [], [] => true
  | x :: a', y :: b' => N.eqb x y && eqb_str a' b'
  | _, _ => false
  end.

(** [c in chars], for a one-character [c]. *)
Definition char_in (c : char) (chars : pystr) : bool := existsb (N.eqb c) chars.

(** [str.isspace] on one code point. *)
Definition isspace (c : char) : bool :=
  ((9 <=? c) && (c <=? 13) || (28 <=? c) && (c <=? 32)
   || (c =? 133) || (c =? 160) || (c =? 5760)
   || (8192 <=? c) && (c <=? 8202) || (c =? 8232) || (c =? 8233)
   || (c =? 8239) || (c =? 8287) || (c =? 12288))%N.

Definition isdigit_char (c : char) : bool := ((48 <=? c) && (c <=? 57))%N.

(** [s.isdigit()]: at least one character, all of them digits. *)
Definition isdigit (s : pystr) : bool :=
  match s with [] => false | _ => forallb isdigit_char s end.

Definition upper_char (c : char) : char :=
  if ((97 <=? c) && (c <=? 122))%N then (c - 32)%N else c.
Definition lower_char (c : char) : char :=
  if ((65 <=? c) && (c <=? 90))%N then (c + 32)%N else c.
Definition upper (s : pystr) : pystr := map upper_char s.
Definition lower (s : pystr) : pystr := map lower_char s.

Fixpoint startswith (p s : pystr) : bool :=
  match p, s with
  | [], _ => true
  | x :: p', y :: s' => N.eqb x y && startswith p' s'
  | _ :: _, [] => false
  end.

(** [p in s] for strings: [p] occurs in [s] as a substring. *)
Fixpoint contains (p s : pystr) : bool :=
  startswith p s || match s with [] => false | _ :: s' => contains p s' end.

Fixpoint dropwhile (f : char -> bool) (s : pystr) : pystr :=
  match s with
  | [] => []
  | c :: s' => if f c then dropwhile f s' else s
  end.

Fixpoint takewhile (f : char -> bool) (s : pystr) : pystr :=
  match s with
  | [] => []
  | c :: s' => if f c then c :: takewhile f s' else []
  end.

Definition lstrip_with (f : char -> bool) (s : pystr) : pystr := dropwhile f s.
Definition rstrip_with (f : char -> bool) (s : pystr) : pystr :=
  rev (dropwhile f (rev s)).
Definition strip_with (f : char -> bool) (s : pystr) : pystr :=
  lstrip_with f (rstrip_with f s).

(** [s.strip()], [s.strip(chars)] and [s.rstrip(chars)]. *)
Definition strip (s : pystr) : pystr := strip_with isspace s.
Definition strip_chars (chars s : pystr) : pystr :=
  strip_with (fun c => char_in c chars) s.
Definition rstrip_chars (chars s : pystr) : pystr :=
  rstrip_with (fun c => char_in c chars) s.

(** [s.split(sep)] for a one-character separator: every occurrence splits,
    empty fields are kept, and the empty string gives one empty field. *)
Fixpoint split_on (sep : char) (s : pystr) : list pystr :=
  match s with
  | [] => [[]]
  | c :: s' =>
      if N.eqb c sep then [] :: split_on sep s'
      else match split_on sep s' with
           | [] => [[c]]
           | t :: ts => (c :: t) :: ts
           end
  end.

(** [s.split()]: fields are the maximal runs of non-white-space characters. *)
Fixpoint split_ws_aux (cur : pystr) (s : pystr) : list pystr :=
  match s with
  | [] => match cur with [] => [] | _ => [rev cur] end
  | c :: s' =>
      if isspace c
      then match cur with
           | [] => split_ws_aux [] s'
           | _ => rev cur :: split_ws_aux [] s'
           end
      else split_ws_aux (c :: cur) s'
  end.
Definition split_ws (s : pystr) : list pystr := split_ws_aux [] s.

Fixpoint join (sep : pystr) (l : list pystr) : pystr :=
  match l with
  | [] => []
  | [t] => t
  | t :: l' => t ++ sep ++ join sep l'
  end.

(** [s[1:-2]]. *)
Definition slice_1_m2 (s : pystr) : pystr :=
  firstn (length s - 2 - 1) (skipn 1 s).

(** ** Reading a text file

    [open(name)] translates ["\r\n"] and ["\r"] to ["\n"]; iterating over the
    file gives its lines, each with its terminator, the last one possibly
    without. *)

Fixpoint universal_newlines (s : pystr) : pystr :=
  match s with
  | [] => []
  | c :: s' =>
      if N.eqb c 13 then
        match s' with
        | d :: _ => if N.eqb d 10 then universal_newlines s'
                    else NL :: universal_newlines s'
        | [] => [NL]
        end
      else c :: universal_newlines s'
  end.

Fixpoint readlines (s : pystr) : list pystr :=
  match s with
  | [] => []
  | c :: s' =>
      if N.eqb c NL then [c] :: readlines s'
      else match s' with
           | [] => [[c]]
           | _ => match readlines s' with
                  | [] => [[c]]
                  | l :: ls => (c :: l) :: ls
                  end
           end
  end.

Definition file_lines (content : pystr) : list pystr :=
  readlines (universal_newlines content).

(** ** Exceptions and results *)

Inductive exn :=
| RuntimeError                    (* generator raised StopIteration *)
| ValueError                      (* unpacking, strptime *)
| InvalidOperation                (* decimal.InvalidOperation *)
| KeyError
| TypeError (msg : pystr).

Inductive result (A : Type) :=
| Ok (a : A)
| Raise (e : exn).
Arguments Ok {A} a.
Arguments Raise {A} e.

Definition bind {A B} (r : result A) (k : A -> result B) : result B :=
  match r with
  | Ok a => k a
  | Raise e => Raise e
  end.

Notation "'do' x <- r ; k" := (bind r (fun x => k))
  (at level 10, x pattern, r at level 100, k at level 200).

Definition or_raise {A} (e : exn) (o : option A) : result A :=
  match o with
  | Some a => Ok a
  | None => Raise e
  end.

(** ** dict: insertion-ordered, keyed by strings *)

Definition dict (V : Type) := list (pystr * V).

Fixpoint dict_get {V} (k : pystr) (d : dict V) : option V :=
  match d with
  | [] => None
  | (k', v) :: d' => if eqb_str k k' then Some v else dict_get k d'
  end.

(** [d[k] = v]: an existing key keeps its place, a new one goes last. *)
Fixpoint dict_set {V} (k : pystr) (v : V) (d : dict V) : dict V :=
  match d with
  | [] => [(k, v)]
  | (k', v') :: d' =>
      if eqb_str k k' then (k', v) :: d' else (k', v') :: dict_set k v d'
  end.

Definition dict_has {V} (k : pystr) (d : dict V) : bool :=
  match dict_get k d with Some _ => true | None => false end.

Definition dict_values {V} (d : dict V) : list V := map snd d.

(** ** Integers in decimal notation: [str(n)] and [int(s)] *)

Definition digit_char (k : N) : char := (48 + k)%N.
Definition digit_val (c : char) : N := (c - 48)%N.

Fixpoint uint_chars (d : Decimal.uint) : pystr :=
  match d with
  | Decimal.Nil => []
  | Decimal.D0 d => digit_char 0 :: uint_chars d
  | Decimal.D1 d => digit_char 1 :: uint_chars d
  | Decimal.D2 d => digit_char 2 :: uint_chars d
  | Decimal.D3 d => digit_char 3 :: uint_chars d
  | Decimal.D4 d => digit_char 4 :: uint_chars d
  | Decimal.D5 d => digit_char 5 :: uint_chars d
  | Decimal.D6 d => digit_char 6 :: uint_chars d
  | Decimal.D7 d => digit_char 7 :: uint_chars d
  | Decimal.D8 d => digit_char 8 :: uint_chars d
  | Decimal.D9 d => digit_char 9 :: uint_chars d
  end.

Fixpoint chars_uint (s : pystr) : Decimal.uint :=
  match s with
  | [] => Decimal.Nil
  | c :: s' =>
      let d := chars_uint s' in
      match digit_val c with
      | 0 => Decimal.D0 d | 1 => Decimal.D1 d | 2 => Decimal.D2 d
      | 3 => Decimal.D3 d | 4 => Decimal.D4 d | 5 => Decimal.D5 d
      | 6 => Decimal.D6 d | 7 => Decimal.D7 d | 8 => Decimal.D8 d
      | _ => Decimal.D9 d
      end%N
  end.

(** [str(n)] for a natural number. *)
Definition str_of_N (n : N) : pystr := uint_chars (N.to_uint n).
(** [int(s)] for a string of digits. *)
Definition int_of_digits (s : pystr) : N := N.of_uint (chars_uint s).

(** ** datetime, with the one format [DATE_FMT = '%Y/%m/%d'] *)

Record datetime := mkdatetime {
  year : N;
  month : N;
  day : N;
  tod : N           (* time of day, in microseconds *)
}.

Definition datetime_cmp (a b : datetime) : comparison :=
  match (year a ?= year b)%N with
  | Eq => match (month a ?= month b)%N with
          | Eq => match (day a ?= day b)%N with
                  | Eq => (tod a ?= tod b)%N
                  | c => c
                  end
          | c => c
          end
  | c => c
  end.

Definition datetime_le (a b : datetime) : bool :=
  match datetime_cmp a b with Gt => false | _ => true end.
Definition datetime_lt (a b : datetime) : bool :=
  match datetime_cmp a b with Lt => true | _ => false end.

Definition is_leap (y : N) : bool :=
  ((y mod 4 =? 0) && (negb (y mod 100 =? 0) || (y mod 400 =? 0)))%N.

Definition days_in_month (y m : N) : N :=
  (if m =? 2 then (if is_leap y then 29 else 28)
   else if (m =? 4) || (m =? 6) || (m =? 9) || (m =? 11) then 30
   else 31)%N.

(** The fields a [%m] or [%d] directive accepts: one or two digits (for the
    day also a space and a digit). *)
Definition field_1_2 (space_ok : bool) (s : pystr) : option N :=
  match s with
  | [a] => if isdigit_char a then Some (digit_val a) else None
  | [a; b] =>
      if isdigit_char a && isdigit_char b
      then Some (10 * digit_val a + digit_val b)%N
      else if space_ok && N.eqb a SP && isdigit_char b
      then Some (digit_val b)
      else None
  | _ => None
  end.

(** [datetime.datetime.strptime(s, DATE_FMT)]; [None] is its [ValueError]. *)
Definition strptime (s : pystr) : option datetime :=
  match s with
  | y1 :: y2 :: y3 :: y4 :: sl :: rest =>
      if forallb isdigit_char [y1; y2; y3; y4] && N.eqb sl 47 then
        match split_on 47 rest with
        | [ms; ds] =>
            match field_1_2 false ms, field_1_2 true ds with
            | Some m, Some d =>
                let y := (1000 * digit_val y1 + 100 * digit_val y2
                          + 10 * digit_val y3 + digit_val y4)%N in
                if ((1 <=? y) && (1 <=? m) && (m <=? 12)
                    && (1 <=? d) && (d <=? days_in_month y m))%N
                then Some (mkdatetime y m d 0)
                else None
            | _, _ => None
            end
        | _ => None
        end
      else None
  | _ => None
  end.

Definition pad2 (n : N) : pystr :=
  [digit_char (n / 10 mod 10); digit_char (n mod 10)]%N.
Definition pad4 (n : N) : pystr :=
  [digit_char (n / 1000 mod 10); digit_char (n / 100 mod 10);
   digit_char (n / 10 mod 10); digit_char (n mod 10)]%N.

(** [d.strftime(DATE_FMT)]. *)
Definition strftime (d : datetime) : pystr :=
  pad4 (year d) ++ [47%N] ++ pad2 (month d) ++ [47%N] ++ pad2 (day d).

(** ** Decimal *)

Record Decimal := mkDecimal {
  dsign : bool;       (* True: negative *)
  dcoef : N;
  dexp : Z
}.

Definition span_digits (s : pystr) : pystr * pystr :=
  (takewhile isdigit_char s, dropwhile isdigit_char s).

Definition read_sign (s : pystr) : bool * pystr :=
  match s with
  | c :: r => if N.eqb c 45 then (true, r)
              else if N.eqb c 43 then (false, r) else (false, s)
  | [] => (false, s)
  end.

(** The exponent after [E]: an optional sign and at least one digit. *)
Definition read_exponent (s : pystr) : option Z :=
  let (neg, ds) := read_sign s in
  if isdigit ds
  then Some (if neg then - Z.of_N (int_of_digits ds)
             else Z.of_N (int_of_digits ds))%Z
  else None.

(** [Decimal(s)] for a string: white space around the numeral and
    underscores are dropped; the numeral is
    [[sign] digits [. digits] [E [sign] digits]] with a digit before or after
    the point.  [None] is [InvalidOperation]. *)
Definition Decimal_of_str (s : pystr) : option Decimal :=
  let s := List.filter (fun c => negb (N.eqb c 95)) (strip s) in
  let (neg, s) := read_sign s in
  let (ip, s1) := span_digits s in
  let (fp, s2) :=
    match s1 with
    | c :: r => if N.eqb c 46 then span_digits r else ([], s1)
    | [] => ([], s1)
    end in
  match ip ++ fp with
  | [] => None
  | ds =>
      let coef := int_of_digits ds in
      let frac := Z.of_nat (List.length fp) in
      match s2 with
      | [] => Some (mkDecimal neg coef (- frac))
      | c :: r =>
          if N.eqb c 69 || N.eqb c 101 then
            match read_exponent r with
            | Some e => Some (mkDecimal neg coef (e - frac))
            | None => None
            end
          else None
      end
  end.

(** ['%+d' % n]. *)
Definition str_signed (n : Z) : pystr :=
  (if (n <? 0)%Z then 45%N else 43%N) :: str_of_N (Z.abs_N n).

(** [str(d)]: the scientific string of the decimal. *)
Definition Decimal_str (d : Decimal) : pystr :=
  let sign := if dsign d then [45%N] else [] in
  let digits := str_of_N (dcoef d) in
  let len := Z.of_nat (List.length digits) in
  let leftdigits := (dexp d + len)%Z in
  let dotplace :=
    if (dexp d <=? 0)%Z && (-6 <? leftdigits)%Z then leftdigits else 1%Z in
  let '(intpart, fracpart) :=
    if (dotplace <=? 0)%Z then
      ([digit_char 0],
       46%N :: repeat (digit_char 0) (Z.to_nat (- dotplace)) ++ digits)
    else if (len <=? dotplace)%Z then
      (digits ++ repeat (digit_char 0) (Z.to_nat (dotplace - len)), [])
    else
      (firstn (Z.to_nat dotplace) digits,
       46%N :: skipn (Z.to_nat dotplace) digits) in
  let exp :=
    if (leftdigits =? dotplace)%Z then []
    else 69%N :: str_signed (leftdigits - dotplace) in
  sign ++ intpart ++ fracpart ++ exp.

(** The signed coefficient of [d] at the exponent [e <= dexp d]. *)
Definition scaled (e : Z) (d : Decimal) : Z :=
  ((if dsign d then -1 else 1) * Z.of_N (dcoef d) * 10 ^ (dexp d - e))%Z.

(** [a + b]. *)
Definition Decimal_add (a b : Decimal) : Decimal :=
  let e := Z.min (dexp a) (dexp b) in
  let z := (scaled e a + scaled e b)%Z in
  mkDecimal (if (z =? 0)%Z then dsign a && dsign b else (z <? 0)%Z)
            (Z.abs_N z) e.

Definition Decimal_neg (a : Decimal) : Decimal :=
  mkDecimal (negb (dsign a)) (dcoef a) (dexp a).

(** [a - b]. *)
Definition Decimal_sub (a b : Decimal) : Decimal :=
  Decimal_add a (Decimal_neg b).

(** [a * b]. *)
Definition Decimal_mul (a b : Decimal) : Decimal :=
  mkDecimal (xorb (dsign a) (dsign b)) (dcoef a * dcoef b) (dexp a + dexp b).

(** The integers [0], [1] and [-1] where a Decimal is expected. *)
Definition Decimal_of_Z (z : Z) : Decimal :=
  mkDecimal (z <? 0)%Z (Z.abs_N z) 0.

(** [a > 0]. *)
Definition Decimal_gt0 (a : Decimal) : bool :=
  negb (dsign a) && (0 <? dcoef a)%N.

(** The number a Decimal stands for; [==] on Decimals compares these. *)
Definition Decimal_value (a : Decimal) : Q :=
  ((if dsign a then -1 else 1) * inject_Z (Z.of_N (dcoef a))
   * (inject_Z 10) ^ (dexp a))%Q.

Definition Decimal_eq (a b : Decimal) : Prop :=
  (Decimal_value a == Decimal_value b)%Q.

(** [sum(values)]: it starts from the integer 0. *)
Definition py_sum (l : list Decimal) : Decimal :=
  fold_left Decimal_add l (Decimal_of_Z 0).

(** [a < b], [a == b], [a > b] on Decimals: the order of the numbers. *)
Definition Decimal_compare (a b : Decimal) : comparison :=
  let e := Z.min (dexp a) (dexp b) in
  (scaled e a ?= scaled e b)%Z.

(** [a < b] on strings: the order of the code points, a proper prefix
    first. *)
Fixpoint str_lt (a b : pystr) : bool :=
  match a, b with
  | _, [] => false
  | [], _ :: _ => true
  | x :: a', y :: b' =>
      if (x <? y)%N then true
      else if (x =? y)%N then str_lt a' b'
      else false
  end.

(** ** class Balance(dict) *)

Module Balance.

Record t := mk {
  reverse : bool;
  coef : Z;
  title : pystr;
  items : dict Decimal
}.

(** [__init__]: [coef = reverse and 1 or -1], and the title likewise. *)
Definition init (reverse : bool) : t :=
  mk reverse
     (if reverse then 1 else -1)%Z
     (if reverse then py "Recettes" else py "Dépenses")
     [].

(** [sum(self.values()) * self.coef] *)
Definition sum (b : t) : Decimal :=
  Decimal_mul (py_sum (dict_values (items b))) (Decimal_of_Z (coef b)).

(** [balance[category] += amount] if the category is there, else
    [balance[category] = amount] *)
Definition accumulate (category : pystr) (amount : Decimal) (b : t) : t :=
  let v := match dict_get category (items b) with
           | Some old => Decimal_add old amount
           | None => amount
           end in
  mk (reverse b) (coef b) (title b) (dict_set category v (items b)).

(** [p < q] on the pairs [(amount, category)] that [__iter__] sorts: the
    amounts decide, and the categories where the amounts are equal. *)
Definition item_lt (p q : Decimal * pystr) : bool :=
  match Decimal_compare (fst p) (fst q) with
  | Lt => true
  | Eq => str_lt (snd p) (snd q)
  | Gt => false
  end.

(** [sorted(l, reverse=True)]: the greatest first, equal pairs in the order
    they had. *)
Fixpoint insert_desc (x : Decimal * pystr) (l : list (Decimal * pystr))
  : list (Decimal * pystr) :=
  match l with
  | [] => [x]
  | y :: l' => if item_lt x y then y :: insert_desc x l' else x :: l
  end.
Definition sorted_reverse (l : list (Decimal * pystr))
  : list (Decimal * pystr) :=
  fold_right insert_desc [] l.

(** [__iter__]: the pairs (category, amount times [coef]). *)
Definition iter (b : t) : list (pystr * Decimal) :=
  map (fun vk => (snd vk, fst vk))
      (sorted_reverse
         (map (fun kv => (Decimal_mul (snd kv) (Decimal_of_Z (coef b)), fst kv))
              (items b))).

End Balance.

(** ** class Move(dict) *)

Module Move.

Record t := mk {
  index : nat;
  line_number : nat;
  date : datetime;
  amount : Decimal;
  category : pystr;
  status : pystr;
  kind : pystr;
  description : option pystr;      (* None until the first text line *)
  comment : pystr
}.

(** [__init__(self, m, i, line)] *)
Definition init (m i : nat) (line : pystr) : result t :=
  match split_on SP (strip line) with
  | [date_str; amount_str; kind; category; status] =>
      do date <- or_raise ValueError (strptime date_str);
      do amount <- or_raise InvalidOperation
                     (Decimal_of_str (rstrip_chars [EURO] amount_str));
      Ok (mk m i date amount category status kind None [])
  | _ => Raise ValueError
  end.

(** [add(self, line)] *)
Definition add (mv : t) (line : pystr) : t :=
  match strip line with
  | [] => mv
  | _ :: _ =>
      match description mv with
      | None =>
          mk (index mv) (line_number mv) (date mv) (amount mv) (category mv)
             (status mv) (kind mv) (Some (strip line)) (comment mv)
      | Some d =>
          mk (index mv) (line_number mv) (date mv) (amount mv) (category mv)
             (status mv) (kind mv) (Some d)
             (comment mv ++ strip_chars [SP] line)
      end
  end.

(** [__lt__] and [__eq__] compare the dates. *)
Definition lt (a b : t) : bool := datetime_lt (date a) (date b).

(** What the Jinja template renders to: its text starts with a line break,
    the one at its end is dropped by Jinja, and [None] prints as "None". *)
Definition template (mv : t) : pystr :=
  [NL] ++ strftime (date mv) ++ [SP] ++ Decimal_str (amount mv)
    ++ [EURO; SP] ++ kind mv ++ [SP] ++ category mv ++ [SP] ++ status mv
    ++ [NL] ++ py "    "
    ++ match description mv with Some d => d | None => py "None" end
    ++ [NL] ++ py "    " ++ comment mv.

(** [__str__] *)
Definition str (mv : t) : pystr := strip (template mv) ++ [NL; NL].

End Move.

(** ** class MovesFile *)

Module MovesFile.

(** The options of the command line.  [arg_i] is the text of the file that
    [-i] names; an option that is absent is [None] (or [false]). *)
Record args := mkargs {
  arg_i : pystr;
  arg_s : option pystr;
  arg_e : option pystr;
  arg_p : bool;
  arg_x : bool;
  arg_g : option pystr;
  arg_period : option pystr
}.

Record registry := mkreg {
  accounts : dict Decimal;
  kinds : dict pystr
}.

(** The three values [periode] takes in [iterator]. *)
Inductive periode :=
| PNone                       (* None *)
| PMarker (marker : pystr)    (* '-- ' + name *)
| PTrue.                      (* True *)

Definition first_char_in (line chars : pystr) : bool :=
  match line with
  | c :: _ => char_in c chars
  | [] => false       (* a file never gives an empty line *)
  end.

(** The loop of [iterator], over the lines still to read. *)
Fixpoint iterator_loop (p : periode) (i : nat) (lines : list pystr)
  : list (nat * pystr) :=
  match lines with
  | [] => []
  | line :: rest =>
      let i := S i in
      match p with
      | PMarker marker =>
          iterator_loop (if startswith marker line then PTrue else p) i rest
      | _ =>
          if (match p with PTrue => true | _ => false end)
             && startswith (py "!") line
          then []
          else if first_char_in line (py "$!#-") then iterator_loop p i rest
          else (i, line) :: iterator_loop p i rest
      end
  end.

(** [iterator(self)] *)
Definition iterator (a : args) : list (nat * pystr) :=
  let p := match arg_period a with
           | Some (c :: name) => PMarker (py "-- " ++ c :: name)
           | _ => PNone
           end in
  iterator_loop p 0 (file_lines (arg_i a)).

(** [filter(self, move)]; [None] is [false]. *)
Definition filter (a : args) (start_date end_date : datetime) (move : Move.t)
  : bool :=
  let g := match arg_g a with Some g => g | None => [] end in
  if (match g with [] => false | _ => true end)
     && negb (contains g (lower (Move.str move)))
  then false
  else if arg_p a && negb (eqb_str (upper (Move.status move)) (py "P"))
  then false
  else if arg_x a && negb (eqb_str (upper (Move.status move)) (py "X"))
  then false
  else if datetime_le start_date (Move.date move)
          && datetime_le (Move.date move) end_date
  then true
  else false.

(** The branch of [parse] for a line that starts with ["++ "], up to the
    next [next(fd)]. *)
Definition declaration (line : pystr) (reg : registry) : result registry :=
  match tl (split_ws line) with
  | [account; ks; amount] =>
      let ks := split_on 44 (slice_1_m2 ks) in
      do amount <- or_raise InvalidOperation (Decimal_of_str amount);
      Ok (mkreg (dict_set account amount (accounts reg))
                (fold_left (fun kd k => dict_set k account kd) ks
                           (kinds reg)))
  | _ => Raise ValueError
  end.

Definition is_start (line : pystr) : bool := isdigit (firstn 4 line).

Definition parsed := result (list Move.t * registry).

(** [if self.filter(move): yield move], then the rest of the generator. *)
Definition yield_if (keep : bool) (move : Move.t) (rest : parsed) : parsed :=
  do (moves, reg) <- rest;
  Ok (if keep then move :: moves else moves, reg).

(** The inner loop [while not line[:4].isdigit()]; [k] is what follows it.
    At the end of the lines the loop breaks and leaves [line] as it is. *)
Fixpoint body (k : Move.t -> nat -> pystr -> list (nat * pystr) -> parsed)
  (move : Move.t) (i : nat) (line : pystr) (fd : list (nat * pystr))
  {struct fd} : parsed :=
  if is_start line then k move i line fd
  else
    let move := Move.add move line in
    match fd with
    | [] => k move i line fd
    | (i', line') :: fd' => body k move i' line' fd'
    end.

(** The loop [while True] of [parse]: [i], [line] is the line at hand, [fd]
    what the iterator still has. *)
Fixpoint parse_loop (a : args) (start_date end_date : datetime)
  (m : nat) (i : nat) (line : pystr) (fd : list (nat * pystr))
  (reg : registry) {struct fd} : parsed :=
  if startswith (py "++ ") line then
    do reg <- declaration line reg;
    match fd with
    | [] => Ok ([], reg)
    | (i', line') :: fd' => parse_loop a start_date end_date m i' line' fd' reg
    end
  else if is_start line then
    let m := S m in
    do move <- Move.init m i line;
    match fd with
    | [] => Ok ([], reg)
    | (i', line') :: fd' =>
        body (fun move i line fd =>
                yield_if (filter a start_date end_date move) move
                  (parse_loop a start_date end_date m i line fd reg))
             move i' line' fd'
    end
  else
    match fd with
    | [] => Ok ([], reg)
    | (i', line') :: fd' => parse_loop a start_date end_date m i' line' fd' reg
    end.

(** [parse(self)], run to its end.  The first [next(fd)] is not guarded. *)
Definition parse (a : args) (start_date end_date : datetime)
  (reg : registry) : parsed :=
  match iterator a with
  | [] => Raise RuntimeError
  | (i, line) :: fd => parse_loop a start_date end_date 0 i line fd reg
  end.

(** [sorted(moves)]: stable, by [Move.__lt__]. *)
Fixpoint insert (x : Move.t) (l : list Move.t) : list Move.t :=
  match l with
  | [] => [x]
  | y :: l' => if Move.lt y x then y :: insert x l' else x :: l
  end.
Definition sorted (l : list Move.t) : list Move.t := fold_right insert [] l.

Record t := mk {
  start_date : datetime;
  end_date : datetime;
  self_accounts : dict Decimal;
  self_kinds : dict pystr;
  moves : list Move.t;
  balance_in : Balance.t;
  balance_out : Balance.t
}.

Definition unknown_kind (kind : pystr) : exn :=
  TypeError (py "Le type " ++ kind ++ py " est inconnu").

(** The loop [for move in self.moves] of [__init__]. *)
Fixpoint aggregate (kinds : dict pystr) (moves : list Move.t)
  (bin bout : Balance.t) (accounts : dict Decimal)
  : result (Balance.t * Balance.t * dict Decimal) :=
  match moves with
  | [] => Ok (bin, bout, accounts)
  | move :: moves' =>
      let '(bin, bout) :=
        if Decimal_gt0 (Move.amount move)
        then (Balance.accumulate (Move.category move) (Move.amount move) bin,
              bout)
        else (bin,
              Balance.accumulate (Move.category move) (Move.amount move) bout)
      in
      match accounts with
      | [] => aggregate kinds moves' bin bout accounts
      | _ :: _ =>
          match dict_get (Move.kind move) kinds with
          | Some account =>
              do old <- or_raise KeyError (dict_get account accounts);
              aggregate kinds moves' bin bout
                (dict_set account (Decimal_add old (Move.amount move))
                          accounts)
          | None => Raise (unknown_kind (Move.kind move))
          end
      end
  end.

(** The first lines of [__init__]: the start date and the end date; [now] is
    what [datetime.datetime.now()] gives. *)
Definition dates (now : datetime) (a : args) : result (datetime * datetime) :=
  do start_date <- match arg_s a with
                   | Some s => or_raise ValueError (strptime s)
                   | None => Ok (mkdatetime 1900 1 1 0)
                   end;
  do end_date <- match arg_e a with
                 | None => Ok now
                 | Some e => if eqb_str e (py "Now") then Ok now
                             else or_raise ValueError (strptime e)
                 end;
  Ok (start_date, end_date).

(** [__init__(self, args)] *)
Definition init (now : datetime) (a : args) : result t :=
  do (start_date, end_date) <- dates now a;
  do (moves, reg) <- parse a start_date end_date (mkreg [] []);
  let moves := sorted moves in
  do (bin, bout, accounts) <-
     aggregate (kinds reg) moves (Balance.init true) (Balance.init false)
               (accounts reg);
  Ok (mk start_date end_date accounts (kinds reg) moves bin bout).

(** The rows [balance(self)] hands to [render_table]. *)
Definition balance (self : t) : list (pystr * Decimal) :=
  let i := balance_in self in
  let o := balance_out self in
  [ (Balance.title i, Balance.sum i);
    (Balance.title o, Balance.sum o);
    (py "Resultat", Decimal_sub (Balance.sum i) (Balance.sum o)) ].

(** [title(self)]; [None] is the IndexError of [self.moves[0]] when there is
    no record. *)
Definition title (self : t) : option pystr :=
  match moves self with
  | [] => None
  | first :: _ =>
      let start_date := Move.date first in
      let end_date := Move.date (last (moves self) first) in
      let title := py "Période du " ++ strftime start_date ++ py " au "
                   ++ strftime end_date ++ [NL] in
      let sep := repeat 61%N (List.length title) ++ [NL] in
      Some (sep ++ title ++ sep)
  end.

End MovesFile.

(** ** Notions used in the statements *)

(** A line that [Move.add] does not ignore. *)
Definition nonblank (line : pystr) : bool :=
  match strip line with [] => false | _ :: _ => true end.

(** The comment as the specification words it: the second and later
    non-blank continuation lines, joined by single spaces, or each of them
    appended with a space before it. *)
Definition spec_comment_joined (lines : list pystr) : pystr :=
  join [SP] (map strip (tl (List.filter nonblank lines))).
Definition spec_comment_prefixed (lines : list pystr) : pystr :=
  concat (map (fun l => SP :: strip l) (tl (List.filter nonblank lines))).

(** The first line of a text. *)
Definition first_line (s : pystr) : pystr :=
  takewhile (fun c => negb (N.eqb c NL)) s.

(** Every kind of the registry names a declared account. *)
Definition kinds_declared (reg : MovesFile.registry) : Prop :=
  forall k account,
    dict_get k (MovesFile.kinds reg) = Some account ->
    dict_has account (MovesFile.accounts reg) = true.

(** The coefficient of a Decimal with its sign. *)
Definition signed_coef (a : Decimal) : Z :=
  ((if dsign a then -1 else 1) * Z.of_N (dcoef a))%Z.

(** The sum, as a number, of the values of some Decimals. *)
Fixpoint value_sum (l : list Decimal) : Q :=
  match l with
  | [] => 0%Q
  | d :: l' => (Decimal_value d + value_sum l')%Q
  end.

(** [amount > 0] on a record. *)
Definition is_income (mv : Move.t) : bool := Decimal_gt0 (Move.amount mv).

(** The record names a kind that no declaration gave. *)
Definition kind_unknown (kinds : dict pystr) (mv : Move.t) : Prop :=
  dict_get (Move.kind mv) kinds = None.

(** A field of [split()]: not empty and without white space. *)
Definition token (s : pystr) : bool :=
  match s with
  | [] => false
  | _ :: _ => forallb (fun c => negb (isspace c)) s
  end.

(** A string without the character [c]. *)
Definition free_of (c : char) (s : pystr) : bool :=
  forallb (fun x => negb (N.eqb x c)) s.

(** The five fields of the header line are the same in two records. *)
Definition same_header (a b : Move.t) : Prop :=
  Move.date a = Move.date b /\ Move.amount a = Move.amount b
  /\ Move.kind a = Move.kind b /\ Move.category a = Move.category b
  /\ Move.status a = Move.status b.

(** The test of [strptime] on the numbers of a date. *)
Definition date_ok (y m d : N) : bool :=
  ((1 <=? y) && (1 <=? m) && (m <=? 12)
   && (1 <=? d) && (d <=? days_in_month y m))%N.

(** The characters of a numeral: digits, signs, the point and [E]. *)
Definition numeric_char (c : char) : bool :=
  isdigit_char c || N.eqb c 43 || N.eqb c 45 || N.eqb c 46 || N.eqb c 69.

(** A numeral in the notation of [str(Decimal)]: a sign, digits, perhaps a
    point and digits, perhaps an exponent. *)
Definition frac_digits (frac : option pystr) : pystr :=
  match frac with Some fp => fp | None => [] end.
Definition frac_part (frac : option pystr) : pystr :=
  match frac with Some fp => 46%N :: fp | None => [] end.
Definition exp_part (ex : option Z) : pystr :=
  match ex with Some e => 69%N :: str_signed e | None => [] end.
Definition exp_value (ex : option Z) : Z :=
  match ex with Some e => e | None => 0 end.
Definition numeral (neg : bool) (ip : pystr) (frac : option pystr)
  (ex : option Z) : pystr :=
  (if neg then [45%N] else []) ++ ip ++ frac_part frac ++ exp_part ex.

(** A string that does not begin with a digit. *)
Definition starts_non_digit (s : pystr) : Prop :=
  match s with
  | [] => True
  | c :: _ => isdigit_char c = false
  end.

(** The first line of the text of a record. *)
Definition header_line (mv : Move.t) : pystr :=
  join [SP] [strftime (Move.date mv); Decimal_str (Move.amount mv) ++ [EURO];
             Move.kind mv; Move.category mv; Move.status mv].

(** A line as a file gives it: without line break, but perhaps at its end. *)
Definition line_shape (line : pystr) : Prop :=
  exists b, (line = b ++ [NL] \/ line = b) /\ free_of NL b = true.

(** What the fields of a record read from a line of a file are like. *)
Definition header_fields (mv : Move.t) : Prop :=
  (tod (Move.date mv) = 0%N /\ (year (Move.date mv) < 10000)%N
   /\ (month (Move.date mv) < 100)%N /\ (day (Move.date mv) < 100)%N
   /\ date_ok (year (Move.date mv)) (month (Move.date mv))
              (day (Move.date mv)) = true)
  /\ Forall (fun t => free_of SP t = true /\ free_of NL t = true)
            [Move.kind mv; Move.category mv; Move.status mv]
  /\ exists t x, Move.status mv = t ++ [x] /\ isspace x = false.

(** The lines of a file with their numbers, counted from 1 or from [n]. *)
Definition numbered_from (n : nat) (lines : list pystr) : list (nat * pystr) :=
  combine (seq n (List.length lines)) lines.
Definition numbered (lines : list pystr) : list (nat * pystr) :=
  numbered_from 1 lines.

(** A numbered line that is no comment: its first character is none of
    [$], [!], [#], [-]. *)
Definition is_content (p : nat * pystr) : bool :=
  negb (MovesFile.first_char_in (snd p) (py "$!#-")).


(** The record [mv] is what a header line of the stream and the lines after
    it give: the header line is followed by a run of lines that start no
    transaction, which ends at the next line that starts one or at the end of
    the stream (and then is not empty); the record is the header line read by
    [Move.__init__], with the lines of the run added in their order. *)
Definition assembled_from (stream : list (nat * pystr)) (mv : Move.t) : Prop :=
  exists pre l conts post mv0,
    stream = pre ++ (Move.line_number mv, l) :: conts ++ post
    /\ MovesFile.is_start l = true
    /\ Forall (fun c => MovesFile.is_start (snd c) = false) conts
    /\ match post with
       | [] => conts <> []
       | p :: _ => MovesFile.is_start (snd p) = true
       end
    /\ Move.init (Move.index mv) (Move.line_number mv) l = Ok mv0
    /\ mv = fold_left Move.add (map snd conts) mv0.


(** The record [a] is not after the record [b]. *)
Definition not_after (a b : Move.t) : Prop := Move.lt b a = false.

(** The banner of [title] for two dates. *)
Definition banner (d0 d1 : datetime) : pystr :=
  let line := py "Période du " ++ strftime d0 ++ py " au " ++ strftime d1
              ++ [NL] in
  let sep := repeat 61%N (List.length line) ++ [NL] in
  sep ++ line ++ sep.


(** The records of the category [c] on the income side ([income = true]) or
    on the expense side. *)
Definition in_bucket (income : bool) (c : pystr) (mv : Move.t) : bool :=
  Bool.eqb (is_income mv) income && eqb_str (Move.category mv) c.

(** The records whose kind belongs to the account. *)
Definition feeds (kinds : dict pystr) (account : pystr) (mv : Move.t) : bool :=
  match dict_get (Move.kind mv) kinds with
  | Some a => eqb_str a account
  | None => false
  end.


(** The value of an entry of a dict of Decimals, 0 for a key that is not
    there. *)
Definition entry_value (o : option Decimal) : Q :=
  match o with Some v => Decimal_value v | None => 0%Q end.


(** * Properties *)

(** ** Strings *)

Lemma eqb_str_eq (a b : pystr) : eqb_str a b = true <-> a = b.
Proof.
  revert b; induction a as [|x a IH]; intros [|y b]; simpl; split;
    try congruence; try reflexivity.
  - intros H. apply andb_true_iff in H as [Hx Hab].
    apply N.eqb_eq in Hx. apply IH in Hab. congruence.
  - intros [= -> ->]. rewrite N.eqb_refl. simpl. now apply IH.
Qed.

Lemma eqb_str_refl (a : pystr) : eqb_str a a = true.
Proof. now apply eqb_str_eq. Qed.

Lemma eqb_str_neq (a b : pystr) : eqb_str a b = false <-> a <> b.
Proof.
  split.
  - intros H E. apply eqb_str_eq in E. congruence.
  - intros H. destruct (eqb_str a b) eqn:E; [|reflexivity].
    apply eqb_str_eq in E. contradiction.
Qed.

Lemma upper_char_target (c t : char) :
  (t < 97 \/ 122 < t)%N -> (65 <= t <= 90)%N ->
  upper_char c = t <-> c = t \/ c = (t + 32)%N.
Proof.
  intros Ht Hu. unfold upper_char.
  destruct ((97 <=? c) && (c <=? 122))%N eqn:E.
  - apply andb_true_iff in E as [E1 E2].
    apply N.leb_le in E1, E2. lia.
  - apply andb_false_iff in E as [E|E]; apply N.leb_gt in E; lia.
Qed.

Lemma upper_is_letter (s : pystr) (t : char) :
  (65 <= t <= 90)%N ->
  upper s = [t] <-> s = [t] \/ s = [(t + 32)%N].
Proof.
  intros Ht. destruct s as [|c [|d s]]; simpl.
  - split; [discriminate | intros [H|H]; discriminate].
  - split.
    + intros [= H]. apply upper_char_target in H; [|lia|lia].
      destruct H as [-> | ->]; auto.
    + intros [[= ->] | [= ->]]; f_equal; apply upper_char_target; auto; lia.
  - split; [discriminate | intros [H|H]; discriminate].
Qed.

(** ** The record filter *)

Section Filter.

Import MovesFile.

Variables (i : pystr) (s e : option pystr) (g period : option pystr).
Variables (start_date end_date : datetime).


(** What gets through the filter is in the range of dates. *)
Lemma filter_in_range (a : args) (move : Move.t) :
  filter a start_date end_date move = true ->
  datetime_le start_date (Move.date move) = true
  /\ datetime_le (Move.date move) end_date = true.
Proof.
  unfold filter.
  destruct (_ && negb (contains _ _)); [discriminate|].
  destruct (arg_p a && _); [discriminate|].
  destruct (arg_x a && _); [discriminate|].
  destruct (datetime_le start_date (Move.date move)); [|discriminate].
  destruct (datetime_le (Move.date move) end_date); [|discriminate].
  auto.
Qed.

End Filter.

(** C6.  The filter lowers the rendered text of the record and leaves the
    pattern as it is: a pattern with a capital letter is not found in a text
    that holds it in small letters, and the record is rejected, though the
    pattern occurs in the text when case is ignored.  The pattern in small
    letters is found. *)
Theorem filter_grep_pattern_not_lowered :
  exists move,
    Move.init 1 1 (py "2020/01/15 -42.50€ CB food P" ++ [NL]) = Ok move
    /\ contains (lower (py "FOOD")) (lower (Move.str move)) = true
    /\ MovesFile.filter
         (MovesFile.mkargs [] None None false false (Some (py "FOOD")) None)
         (mkdatetime 1900 1 1 0) (mkdatetime 2026 11 3 0) move = false
    /\ MovesFile.filter
         (MovesFile.mkargs [] None None false false (Some (py "food")) None)
         (mkdatetime 1900 1 1 0) (mkdatetime 2026 11 3 0) move = true.
Proof.
  eexists. split; [vm_compute; reflexivity|].
  repeat split; vm_compute; reflexivity.
Qed.

(** ** The period of the iterator *)

Lemma iterator_loop_marker_absent (marker : pystr) (lines : list pystr) :
  forall i,
    Forall (fun line => startswith marker line = false) lines ->
    MovesFile.iterator_loop (MovesFile.PMarker marker) i lines = [].
Proof.
  induction lines as [|line lines IH]; intros i H; [reflexivity|].
  inversion H as [|? ? Hl Hr]; subst. simpl. rewrite Hl. now apply IH.
Qed.

(** C1.  With a period name whose marker ['-- ' + name] starts no line of the
    input, the iterator yields nothing; the first [next(fd)] of [parse] is
    outside any [try], so that the generator ends in a RuntimeError and not
    in an empty list of records. *)
Theorem parse_period_not_found
  (i : pystr) (s e g : option pystr) (p x : bool) (c : char) (name : pystr)
  (start_date end_date : datetime) (reg : MovesFile.registry) :
  Forall (fun line => startswith (py "-- " ++ c :: name) line = false)
         (file_lines i) ->
  MovesFile.iterator (MovesFile.mkargs i s e p x g (Some (c :: name))) = []
  /\ MovesFile.parse (MovesFile.mkargs i s e p x g (Some (c :: name)))
       start_date end_date reg = Raise RuntimeError.
Proof.
  intros H.
  assert (E : MovesFile.iterator
                (MovesFile.mkargs i s e p x g (Some (c :: name))) = []).
  { unfold MovesFile.iterator. cbn [MovesFile.arg_period MovesFile.arg_i].
    now apply iterator_loop_marker_absent. }
  split; [exact E|]. unfold MovesFile.parse. now rewrite E.
Qed.

Lemma parse_period_not_found_witness :
  MovesFile.iterator
    (MovesFile.mkargs (py "-- 2019
2019/01/15 -42.50€ CB food P
    lunch
") None None false false None (Some (py "2020"))) = []
  /\ MovesFile.parse
    (MovesFile.mkargs (py "-- 2019
2019/01/15 -42.50€ CB food P
    lunch
") None None false false None (Some (py "2020")))
    (mkdatetime 1900 1 1 0) (mkdatetime 2026 11 3 0)
    (MovesFile.mkreg [] []) = Raise RuntimeError.
Proof.
  apply (parse_period_not_found _ None None None false false 50%N (py "020")).
  vm_compute. repeat constructor.
Defined.

(** ** Continuation lines *)

Section Continuation.

Import Move.

Lemma add_blank (mv : t) (line : pystr) :
  nonblank line = false -> add mv line = mv.
Proof.
  unfold nonblank, add. now destruct (strip line).
Qed.

Lemma add_first (mv : t) (line : pystr) :
  nonblank line = true -> description mv = None ->
  description (add mv line) = Some (strip line)
  /\ comment (add mv line) = comment mv.
Proof.
  unfold nonblank, add. intros H D.
  destruct (strip line); [discriminate|]. rewrite D. auto.
Qed.

Lemma add_next (mv : t) (line d : pystr) :
  nonblank line = true -> description mv = Some d ->
  description (add mv line) = Some d
  /\ comment (add mv line) = comment mv ++ strip_chars [SP] line.
Proof.
  unfold nonblank, add. intros H D.
  destruct (strip line); [discriminate|]. rewrite D. auto.
Qed.

Lemma add_all_described (lines : list pystr) :
  forall (mv : t) (d : pystr),
    description mv = Some d ->
    comment (fold_left add lines mv)
    = comment mv
      ++ concat (map (strip_chars [SP]) (List.filter nonblank lines)).
Proof.
  induction lines as [|line lines IH]; intros mv d D; simpl.
  - now rewrite app_nil_r.
  - destruct (nonblank line) eqn:B.
    + destruct (add_next mv line d B D) as [D' C'].
      rewrite (IH _ d D'), C'. simpl. now rewrite app_assoc.
    + rewrite (add_blank _ _ B). now apply (IH mv d).
Qed.

Lemma add_all_fresh (lines : list pystr) :
  forall (mv : t),
    description mv = None ->
    comment (fold_left add lines mv)
    = comment mv
      ++ concat (map (strip_chars [SP]) (tl (List.filter nonblank lines))).
Proof.
  induction lines as [|line lines IH]; intros mv D; simpl.
  - now rewrite app_nil_r.
  - destruct (nonblank line) eqn:B.
    + destruct (add_first mv line B D) as [D' C'].
      rewrite (add_all_described _ _ _ D'), C'. reflexivity.
    + rewrite (add_blank _ _ B). now apply IH.
Qed.

(** C7, as the code has it.  The comment of a record is the second and
    later non-blank continuation lines, each with the spaces (and only the
    spaces) at its two ends taken off, put one after the other with nothing
    added between them; blank lines add nothing, and with fewer than two
    non-blank lines the comment is empty. *)
Theorem comment_is_concatenation
  (m i : nat) (d : datetime) (a : Decimal) (c s k : pystr)
  (lines : list pystr) :
  comment (fold_left add lines (mk m i d a c s k None []))
  = concat (map (strip_chars [SP]) (tl (List.filter nonblank lines)))
  /\ (List.length (List.filter nonblank lines) < 2 ->
      comment (fold_left add lines (mk m i d a c s k None [])) = []).
Proof.
  assert (E := add_all_fresh lines (mk m i d a c s k None []) eq_refl).
  cbn [comment app] in E.
  split; [exact E|]. intros H. rewrite E.
  destruct (List.filter nonblank lines) as [|l1 [|l2 ls]];
    simpl in *; try reflexivity; lia.
Qed.

End Continuation.

Lemma comment_is_concatenation_witness :
  Move.comment
    (fold_left Move.add [py "    lunch" ++ [NL]; [NL]]
       (Move.mk 1 1 (mkdatetime 2020 1 15 0) (mkDecimal true 4250 (-2))
                (py "food") (py "P") (py "CB") None [])) = [].
Proof.
  apply (comment_is_concatenation 1 1 (mkdatetime 2020 1 15 0)
           (mkDecimal true 4250 (-2)) (py "food") (py "P") (py "CB")
           [py "    lunch" ++ [NL]; [NL]]).
  vm_compute. lia.
Defined.

(** C7, as the specification words it, fails: three text lines give the
    comment "with\nfriends\n", in which the lines keep their line breaks;
    that is neither "with friends" nor " with friends". *)
Lemma comment_not_space_joined :
  let lines := [py "    lunch" ++ [NL]; py "    with" ++ [NL];
                py "    friends" ++ [NL]] in
  let move := fold_left Move.add lines
                (Move.mk 1 1 (mkdatetime 2020 1 15 0)
                   (mkDecimal true 4250 (-2)) (py "food") (py "P") (py "CB")
                   None []) in
  Move.comment move = py "with" ++ [NL] ++ py "friends" ++ [NL]
  /\ Move.comment move <> spec_comment_joined lines
  /\ Move.comment move <> spec_comment_prefixed lines.
Proof.
  vm_compute. repeat split; discriminate.
Qed.

(** ** dict *)

Section Dict.

Context {V : Type}.
Implicit Types (d : dict V) (k : pystr) (v : V).

Lemma dict_get_set_same d k v : dict_get k (dict_set k v d) = Some v.
Proof.
  induction d as [|[k' v'] d IH]; simpl.
  - now rewrite eqb_str_refl.
  - destruct (eqb_str k k') eqn:E; simpl; rewrite E; auto.
Qed.

Lemma dict_get_set_other d k k' v :
  k <> k' -> dict_get k' (dict_set k v d) = dict_get k' d.
Proof.
  intros N. induction d as [|[k0 v0] d IH]; simpl.
  - apply not_eq_sym, eqb_str_neq in N. now rewrite N.
  - destruct (eqb_str k k0) eqn:E; simpl.
    + apply eqb_str_eq in E. subst k0.
      apply not_eq_sym, eqb_str_neq in N. now rewrite N.
    + now rewrite IH.
Qed.

Lemma dict_get_set d k k' v :
  dict_get k' (dict_set k v d) = if eqb_str k' k then Some v else dict_get k' d.
Proof.
  destruct (eqb_str k' k) eqn:E.
  - apply eqb_str_eq in E. subst. apply dict_get_set_same.
  - apply eqb_str_neq in E. apply dict_get_set_other. congruence.
Qed.

Lemma dict_has_set d k k' v :
  dict_has k' d = true -> dict_has k' (dict_set k v d) = true.
Proof.
  unfold dict_has. rewrite dict_get_set.
  destruct (eqb_str k' k); auto.
Qed.

Lemma dict_set_not_empty d k v : dict_set k v d <> [].
Proof. destruct d as [|[k' v'] d]; simpl; [|destruct (eqb_str k k')]; discriminate. Qed.

End Dict.

(** ** The parser *)

Section Parser.

Import MovesFile.

Variables (a : args) (start_date end_date : datetime).

Let loop := parse_loop a start_date end_date.
Let passes := filter a start_date end_date.

Lemma parse_loop_eq m i line fd reg :
  loop m i line fd reg =
  if startswith (py "++ ") line then
    do reg <- declaration line reg;
    match fd with
    | [] => Ok ([], reg)
    | (i', line') :: fd' => loop m i' line' fd' reg
    end
  else if is_start line then
    do move <- Move.init (S m) i line;
    match fd with
    | [] => Ok ([], reg)
    | (i', line') :: fd' =>
        body (fun move i line fd =>
                yield_if (passes move) move (loop (S m) i line fd reg))
             move i' line' fd'
    end
  else
    match fd with
    | [] => Ok ([], reg)
    | (i', line') :: fd' => loop m i' line' fd' reg
    end.
Proof. destruct fd; reflexivity. Qed.

(** The inner loop ends: it hands to what follows it a record, a line and
    the lines still unread. *)
Lemma body_exit k fd :
  forall move i line,
  exists move' i' line' fd',
    body k move i line fd = k move' i' line' fd'
    /\ List.length fd' <= List.length fd.
Proof.
  induction fd as [|[j l] fd IH]; intros move i line; simpl.
  - destruct (is_start line); eauto 6.
  - destruct (is_start line).
    + exists move, i, line, ((j, l) :: fd). auto.
    + destruct (IH (Move.add move line) j l) as (mv' & i' & l' & fd' & E & L).
      exists mv', i', l', fd'. split; [exact E | simpl; lia].
Qed.

Lemma fold_set_kinds (account : pystr) (ks : list pystr) :
  forall (kd : dict pystr) k acct,
    dict_get k (fold_left (fun kd k => dict_set k account kd) ks kd)
    = Some acct ->
    acct = account \/ dict_get k kd = Some acct.
Proof.
  induction ks as [|k0 ks IH]; intros kd k acct H; simpl in H; auto.
  apply IH in H as [H|H]; auto.
  rewrite dict_get_set in H. destruct (eqb_str k k0); auto.
  left. congruence.
Qed.

Lemma fold_set_kinds_in (account : pystr) (ks : list pystr) :
  forall (kd : dict pystr) k,
    In k ks \/ dict_get k kd = Some account ->
    dict_get k (fold_left (fun kd k => dict_set k account kd) ks kd)
    = Some account.
Proof.
  induction ks as [|k0 ks IH]; intros kd k H; simpl.
  - destruct H as [[]|H]; exact H.
  - apply IH. rewrite dict_get_set.
    destruct (eqb_str k k0) eqn:E; auto.
    apply eqb_str_neq in E.
    destruct H as [[H|H]|H]; auto. congruence.
Qed.

Lemma declaration_kinds_declared line reg reg' :
  declaration line reg = Ok reg' -> kinds_declared reg -> kinds_declared reg'.
Proof.
  unfold declaration.
  destruct (tl (split_ws line)) as [|account [|ks [|amount [|? ?]]]];
    try discriminate.
  destruct (Decimal_of_str amount) as [d|]; try discriminate.
  intros [= <-] Q k acct H. cbn [kinds accounts] in *.
  apply fold_set_kinds in H as [-> | H].
  - unfold dict_has. now rewrite dict_get_set_same.
  - apply dict_has_set. exact (Q _ _ H).
Qed.

(** What the parser gives: records that got through the filter, and a
    registry whose kinds name declared accounts. *)
Lemma parse_loop_sound n :
  forall fd, List.length fd <= n ->
  forall m i line reg moves reg',
    loop m i line fd reg = Ok (moves, reg') ->
    Forall (fun mv => passes mv = true) moves
    /\ (kinds_declared reg -> kinds_declared reg').
Proof.
  induction n as [|n IH]; intros fd L m i line reg moves reg';
    rewrite parse_loop_eq.
  - destruct fd; [|simpl in L; lia].
    destruct (startswith (py "++ ") line).
    + destruct (declaration line reg) as [r|] eqn:D; [|discriminate].
      simpl. intros [= <- <-]. split; [constructor|].
      exact (declaration_kinds_declared _ _ _ D).
    + destruct (is_start line).
      * destruct (Move.init (S m) i line); [|discriminate].
        simpl. intros [= <- <-]. auto.
      * intros [= <- <-]. auto.
  - destruct (startswith (py "++ ") line).
    + destruct (declaration line reg) as [r|] eqn:D; [|discriminate].
      simpl. pose proof (declaration_kinds_declared _ _ _ D) as D'.
      destruct fd as [|[j l] fd].
      * intros [= <- <-]. auto.
      * intros H. apply IH in H; [|simpl in L; lia].
        destruct H as [F Q]. auto.
    + destruct (is_start line).
      * destruct (Move.init (S m) i line) as [mv|]; [|discriminate].
        simpl. destruct fd as [|[j l] fd]; [intros [= <- <-]; auto|].
        match goal with |- body ?k _ _ _ _ = _ -> _ =>
          destruct (body_exit k fd mv j l) as (mv' & i' & l' & fd' & E & L')
        end.
        rewrite E. unfold yield_if.
        destruct (loop (S m) i' l' fd' reg) as [[ms r]|] eqn:R;
          [|discriminate].
        simpl. intros [= <- <-].
        apply IH in R; [|simpl in L; lia].
        destruct R as [F Q]. split; [|exact Q].
        destruct (passes mv') eqn:P; auto.
      * destruct fd as [|[j l] fd]; [intros [= <- <-]; auto|].
        apply IH. simpl in L; lia.
Qed.

Lemma parse_sound reg moves reg' :
  parse a start_date end_date reg = Ok (moves, reg') ->
  Forall (fun mv => passes mv = true) moves
  /\ (kinds_declared reg -> kinds_declared reg').
Proof.
  unfold parse. destruct (iterator a) as [|[i line] fd]; [discriminate|].
  now apply (parse_loop_sound (List.length fd)).
Qed.

(** C5.  Every record the parser emits has its date between the start date
    and the end date, both included. *)
Theorem parse_emits_in_range (reg : registry) moves reg' :
  parse a start_date end_date reg = Ok (moves, reg') ->
  Forall (fun mv => datetime_le start_date (Move.date mv) = true
                    /\ datetime_le (Move.date mv) end_date = true) moves.
Proof.
  intros H. apply parse_sound in H as [F _].
  eapply Forall_impl; [|exact F].
  intros mv P. exact (filter_in_range start_date end_date a mv P).
Qed.

End Parser.

Lemma parse_emits_in_range_witness :
  let a := MovesFile.mkargs (py "2020/01/15 -42.50€ CB food P
    lunch
2031/01/16 10€ TR gift X
    too late
") None None false false None None in
  let start_date := mkdatetime 1900 1 1 0 in
  let end_date := mkdatetime 2026 11 3 0 in
  exists moves,
    MovesFile.parse a start_date end_date (MovesFile.mkreg [] [])
    = Ok (moves, MovesFile.mkreg [] [])
    /\ List.length moves = 1
    /\ Forall (fun mv => datetime_le start_date (Move.date mv) = true
                         /\ datetime_le (Move.date mv) end_date = true)
              moves.
Proof.
  intros a start_date end_date.
  eexists. split; [vm_compute; reflexivity|].
  split; [reflexivity|].
  apply (parse_emits_in_range a start_date end_date (MovesFile.mkreg [] [])
           _ (MovesFile.mkreg [] [])).
  vm_compute. reflexivity.
Defined.

(** ** Stripping *)

Section Strip.

Variable f : char -> bool.

Lemma dropwhile_snoc (l : pystr) (c : char) :
  dropwhile f (l ++ [c]) =
  match dropwhile f l with
  | [] => if f c then [] else [c]
  | t => t ++ [c]
  end.
Proof.
  induction l as [|x l IH]; simpl.
  - destruct (f c); reflexivity.
  - destruct (f x); [exact IH | reflexivity].
Qed.

(** [rstrip] by recursion on the string. *)
Lemma rstrip_cons (c : char) (s : pystr) :
  rstrip_with f (c :: s) =
  match rstrip_with f s with
  | [] => if f c then [] else [c]
  | t => c :: t
  end.
Proof.
  unfold rstrip_with. simpl. rewrite dropwhile_snoc.
  destruct (dropwhile f (rev s)) as [|x t] eqn:E.
  - simpl. destruct (f c); reflexivity.
  - rewrite rev_app_distr. simpl.
    destruct (rev t ++ [x]) eqn:E'; [|reflexivity].
    destruct (rev t); discriminate.
Qed.

Lemma rstrip_all (s : pystr) :
  forallb f s = true -> rstrip_with f s = [].
Proof.
  induction s as [|c s IH]; [reflexivity|]. simpl.
  intros H. apply andb_true_iff in H as [Hc Hs].
  rewrite rstrip_cons, (IH Hs), Hc. reflexivity.
Qed.

Lemma rstrip_app_keep (s t : pystr) :
  rstrip_with f t <> [] -> rstrip_with f (s ++ t) = s ++ rstrip_with f t.
Proof.
  intros H. induction s as [|c s IH]; [reflexivity|].
  simpl. rewrite rstrip_cons, IH.
  destruct (s ++ rstrip_with f t) eqn:E; [|reflexivity].
  apply app_eq_nil in E as [_ E]. contradiction.
Qed.

Lemma rstrip_app_drop (s t : pystr) :
  forallb f t = true -> rstrip_with f (s ++ t) = rstrip_with f s.
Proof.
  intros H. induction s as [|c s IH]; simpl.
  - now apply rstrip_all.
  - now rewrite !rstrip_cons, IH.
Qed.

Lemma rstrip_snoc_keep (s : pystr) (c : char) :
  f c = false -> rstrip_with f (s ++ [c]) = s ++ [c].
Proof.
  intros H. rewrite rstrip_app_keep.
  - rewrite rstrip_cons. simpl. now rewrite H.
  - rewrite rstrip_cons. simpl. rewrite H. discriminate.
Qed.

Lemma rstrip_head (c : char) (s : pystr) :
  f c = false -> exists t, rstrip_with f (c :: s) = c :: t.
Proof.
  intros H. rewrite rstrip_cons.
  destruct (rstrip_with f s); [rewrite H|]; eauto.
Qed.

Lemma strip_head (c : char) (s : pystr) :
  f c = false -> exists t, strip_with f (c :: s) = c :: t.
Proof.
  intros H. unfold strip_with, lstrip_with.
  destruct (rstrip_head c s H) as [t ->]. simpl. rewrite H. eauto.
Qed.

(** What [rstrip] leaves is a prefix of the string. *)
Lemma rstrip_prefix (s : pystr) :
  exists t, s = rstrip_with f s ++ t /\ forallb f t = true.
Proof.
  induction s as [|c s (t & E & F)].
  - exists []. auto.
  - rewrite rstrip_cons. destruct (rstrip_with f s) as [|x r] eqn:R.
    + simpl in E. subst t. destruct (f c) eqn:C.
      * exists (c :: s). simpl. rewrite C. auto.
      * exists s. auto.
    + exists t. simpl. split; [now rewrite E at 1 | exact F].
Qed.

Lemma dropwhile_suffix (s : pystr) :
  exists t, s = t ++ dropwhile f s /\ forallb f t = true.
Proof.
  induction s as [|c s (t & E & F)].
  - exists []. auto.
  - simpl. destruct (f c) eqn:C.
    + exists (c :: t). simpl. rewrite C. split; [now f_equal | exact F].
    + exists []. auto.
Qed.

(** What stays after stripping has no stripped character at its ends. *)
Lemma rstrip_last (s : pystr) :
  rstrip_with f s = [] \/
  exists t c, rstrip_with f s = t ++ [c] /\ f c = false.
Proof.
  unfold rstrip_with. destruct (dropwhile f (rev s)) as [|c t] eqn:E; auto.
  right. exists (rev t), c. split; [reflexivity|].
  clear - E. induction (rev s) as [|x l IH]; [discriminate|].
  simpl in E. destruct (f x) eqn:X; [auto | congruence].
Qed.

End Strip.

Lemma startswith_app (p s : pystr) :
  startswith p s = true <-> exists t, s = p ++ t.
Proof.
  revert s; induction p as [|x p IH]; intros s; simpl.
  - split; eauto.
  - destruct s as [|y s].
    + split; [discriminate | intros [t H]; discriminate].
    + rewrite andb_true_iff, N.eqb_eq, IH. split.
      * intros [-> [t ->]]. eauto.
      * intros [t [= -> ->]]. eauto.
Qed.

Lemma nonblank_head (c : char) (s : pystr) :
  isspace c = false -> nonblank (c :: s) = true.
Proof.
  intros H. unfold nonblank, strip.
  destruct (strip_head isspace c s H) as [r ->]. reflexivity.
Qed.

Lemma declaration_line_shape (line : pystr) :
  startswith (py "++ ") line = true ->
  MovesFile.is_start line = false /\ nonblank line = true.
Proof.
  intros H. apply startswith_app in H as [t ->]. split.
  - reflexivity.
  - now apply (nonblank_head 43%N).
Qed.

(** C3, as the code has it.  A line that starts with '++ ' and comes while a
    record is open, with a further line after it, is a continuation line of
    that record: the loop over the continuation lines adds it to the record
    (as the description if the record has none yet, else at the end of the
    comment) and goes on with the next line; the record is not closed and
    what follows the loop, the registry in it, is not touched. *)
Theorem declaration_inside_record_is_text
  (k : Move.t -> nat -> pystr -> list (nat * pystr) -> MovesFile.parsed)
  (move : Move.t) (i : nat) (line : pystr)
  (j : nat) (next : pystr) (fd : list (nat * pystr)) :
  startswith (py "++ ") line = true ->
  MovesFile.body k move i line ((j, next) :: fd)
  = MovesFile.body k (Move.add move line) j next fd
  /\ (Move.description move = None ->
      Move.description (Move.add move line) = Some (strip line))
  /\ (forall d, Move.description move = Some d ->
      Move.comment (Move.add move line)
      = Move.comment move ++ strip_chars [SP] line).
Proof.
  intros H. apply declaration_line_shape in H as [S B].
  repeat split.
  - simpl. now rewrite S.
  - intros D. now apply add_first.
  - intros d D. now apply (add_next move line d).
Qed.

Lemma declaration_inside_record_is_text_witness :
  Move.description
    (Move.add (Move.mk 1 1 (mkdatetime 2020 1 15 0) (mkDecimal true 1000 (-2))
                       (py "food") (py "P") (py "CB") None [])
              (py "++ bank (CB,TR): 1000.00" ++ [NL]))
  = Some (py "++ bank (CB,TR): 1000.00").
Proof.
  apply (declaration_inside_record_is_text
           (fun _ _ _ _ => Raise ValueError) _ 2
           (py "++ bank (CB,TR): 1000.00" ++ [NL]) 3 [NL] []);
    reflexivity.
Defined.

(** C3, as the specification words it, fails: between two transactions the
    line '++ bank (CB,TR): 1000.00' becomes the description of the first
    record, and neither the account nor its kinds are registered. *)
Lemma declaration_inside_record_not_registered :
  exists mv1 mv2 reg,
    MovesFile.parse
      (MovesFile.mkargs (py "2020/01/15 -10.00€ CB food P
++ bank (CB,TR): 1000.00
2020/01/16 -5.00€ CB food P
    bread
") None None false false None None)
      (mkdatetime 1900 1 1 0) (mkdatetime 2026 11 3 0) (MovesFile.mkreg [] [])
    = Ok ([mv1; mv2], reg)
    /\ Move.description mv1 = Some (py "++ bank (CB,TR): 1000.00")
    /\ MovesFile.accounts reg = []
    /\ MovesFile.kinds reg = []
    /\ ~ (dict_has (py "bank") (MovesFile.accounts reg) = true
          /\ Move.description mv1 <> Some (py "++ bank (CB,TR): 1000.00")).
Proof.
  do 3 eexists. split; [vm_compute; reflexivity|].
  repeat split. intros [H _]. discriminate H.
Qed.

(** ** Decimal arithmetic *)

Section DecimalArith.

Open Scope Q_scope.

Let ten := inject_Z 10.

Lemma ten_nonzero : ~ ten == 0.
Proof. unfold ten. intros H. discriminate H. Qed.

Lemma value_signed (a : Decimal) :
  Decimal_value a == inject_Z (signed_coef a) * ten ^ dexp a.
Proof.
  unfold Decimal_value, signed_coef. rewrite inject_Z_mult.
  destruct (dsign a); reflexivity.
Qed.

Lemma value_scaled (e : Z) (a : Decimal) :
  (e <= dexp a)%Z ->
  inject_Z (scaled e a) * ten ^ e == Decimal_value a.
Proof.
  intros H. rewrite value_signed. unfold scaled, signed_coef.
  rewrite (inject_Z_mult _ (10 ^ _)).
  rewrite Zpower_Qpower by lia. fold ten.
  replace (dexp a) with ((dexp a - e) + e)%Z at 2 by lia.
  rewrite (Qpower_plus ten _ _ ten_nonzero). ring.
Qed.

Lemma sign_abs (z : Z) (s : bool) :
  ((if (if (z =? 0)%Z then s else (z <? 0)%Z) then -1 else 1)
   * Z.of_N (Z.abs_N z))%Z = z.
Proof.
  rewrite N2Z.inj_abs_N.
  destruct (z =? 0)%Z eqn:E0.
  - apply Z.eqb_eq in E0. subst. destruct s; reflexivity.
  - destruct (z <? 0)%Z eqn:E1.
    + apply Z.ltb_lt in E1. lia.
    + apply Z.ltb_ge in E1. lia.
Qed.

Lemma value_add (a b : Decimal) :
  Decimal_value (Decimal_add a b) == Decimal_value a + Decimal_value b.
Proof.
  rewrite (value_signed (Decimal_add a b)).
  unfold Decimal_add, signed_coef. cbn [dsign dcoef dexp].
  rewrite sign_abs, inject_Z_plus, Qmult_plus_distr_l.
  rewrite !value_scaled by lia. reflexivity.
Qed.

Lemma value_neg (a : Decimal) :
  Decimal_value (Decimal_neg a) == - Decimal_value a.
Proof.
  unfold Decimal_value, Decimal_neg. cbn [dsign dcoef dexp].
  destruct (dsign a); simpl negb; cbv iota; ring.
Qed.

Lemma value_sub (a b : Decimal) :
  Decimal_value (Decimal_sub a b) == Decimal_value a - Decimal_value b.
Proof.
  unfold Decimal_sub. rewrite value_add, value_neg. ring.
Qed.

Lemma value_mul (a b : Decimal) :
  Decimal_value (Decimal_mul a b) == Decimal_value a * Decimal_value b.
Proof.
  unfold Decimal_value, Decimal_mul. cbn [dsign dcoef dexp].
  rewrite N2Z.inj_mul, inject_Z_mult. fold ten.
  rewrite (Qpower_plus ten _ _ ten_nonzero).
  destruct (dsign a), (dsign b); simpl xorb; cbv iota; ring.
Qed.

Lemma value_of_Z (z : Z) : Decimal_value (Decimal_of_Z z) == inject_Z z.
Proof.
  rewrite value_signed. unfold signed_coef, Decimal_of_Z.
  cbn [dsign dcoef dexp].
  assert (E := sign_abs z false).
  destruct (z =? 0)%Z eqn:E0.
  - apply Z.eqb_eq in E0. subst. reflexivity.
  - rewrite E. simpl. ring.
Qed.

Lemma pos_times_pos (z : Z) (p : Q) :
  0 < p -> (0 < inject_Z z * p <-> (0 < z)%Z).
Proof.
  intros P. split.
  - intros H. destruct (Z_lt_le_dec 0 z) as [L|L]; [exact L|]. exfalso.
    assert (B : inject_Z z * p <= 0 * p).
    { apply Qmult_le_compat_r; [|now apply Qlt_le_weak].
      change 0 with (inject_Z 0). rewrite <- Zle_Qle. exact L. }
    rewrite Qmult_0_l in B. apply (Qlt_irrefl 0).
    eapply Qlt_le_trans; eauto.
  - intros H. apply Qmult_lt_0_compat; [|exact P].
    change 0 with (inject_Z 0). rewrite <- Zlt_Qlt. exact H.
Qed.

(** [a > 0] is about the number. *)
Lemma gt0_value (a : Decimal) :
  Decimal_gt0 a = true <-> 0 < Decimal_value a.
Proof.
  assert (P : 0 < ten ^ dexp a) by (apply Qpower_0_lt; reflexivity).
  rewrite value_signed, (pos_times_pos _ _ P).
  unfold Decimal_gt0, signed_coef.
  destruct (dsign a); simpl negb.
  - split; [discriminate | lia].
  - rewrite andb_true_l, N.ltb_lt. lia.
Qed.

Lemma value_fold_add (l : list Decimal) :
  forall acc,
    Decimal_value (fold_left Decimal_add l acc)
    == Decimal_value acc + value_sum l.
Proof.
  induction l as [|d l IH]; intros acc; simpl.
  - ring.
  - rewrite IH, value_add. ring.
Qed.

Lemma value_py_sum (l : list Decimal) :
  Decimal_value (py_sum l) == value_sum l.
Proof.
  unfold py_sum. rewrite value_fold_add, value_of_Z. ring.
Qed.

Lemma value_sum_set_new (k : pystr) (v : Decimal) (d : dict Decimal) :
  dict_get k d = None ->
  value_sum (dict_values (dict_set k v d))
  == value_sum (dict_values d) + Decimal_value v.
Proof.
  induction d as [|[k' v'] d IH]; simpl.
  - intros _. ring.
  - destruct (eqb_str k k'); [discriminate|].
    intros H. specialize (IH H). unfold dict_values in *.
    cbn [map snd value_sum]. rewrite IH. ring.
Qed.

Lemma value_sum_set_old (k : pystr) (v old : Decimal) (d : dict Decimal) :
  dict_get k d = Some old ->
  value_sum (dict_values (dict_set k v d))
  == value_sum (dict_values d) - Decimal_value old + Decimal_value v.
Proof.
  induction d as [|[k' v'] d IH]; simpl.
  - discriminate.
  - destruct (eqb_str k k').
    + intros [= ->]. unfold dict_values.
      cbn [map snd value_sum]. ring.
    + intros H. specialize (IH H). unfold dict_values in *.
      cbn [map snd value_sum]. rewrite IH. ring.
Qed.

Lemma value_sum_accumulate (c : pystr) (amount : Decimal) (b : Balance.t) :
  value_sum (dict_values (Balance.items (Balance.accumulate c amount b)))
  == value_sum (dict_values (Balance.items b)) + Decimal_value amount.
Proof.
  unfold Balance.accumulate. cbn [Balance.items].
  destruct (dict_get c (Balance.items b)) as [old|] eqn:G.
  - rewrite (value_sum_set_old _ _ _ _ G), value_add. ring.
  - now rewrite (value_sum_set_new _ _ _ G).
Qed.

Lemma value_sum_split (moves : list Move.t) :
  value_sum (map Move.amount moves)
  == value_sum (map Move.amount (List.filter is_income moves))
     + value_sum (map Move.amount
                    (List.filter (fun mv => negb (is_income mv)) moves)).
Proof.
  induction moves as [|mv moves IH]; simpl; [ring|].
  destruct (is_income mv); simpl; rewrite IH; ring.
Qed.

End DecimalArith.

(** ** The aggregation *)

Section Aggregation.

Import MovesFile.

Variable kinds : dict pystr.

Lemma aggregate_cons move moves bin bout accounts :
  aggregate kinds (move :: moves) bin bout accounts =
  let bin' := if is_income move
              then Balance.accumulate (Move.category move) (Move.amount move) bin
              else bin in
  let bout' := if is_income move then bout
               else Balance.accumulate (Move.category move) (Move.amount move)
                      bout in
  match accounts with
  | [] => aggregate kinds moves bin' bout' accounts
  | _ :: _ =>
      match dict_get (Move.kind move) kinds with
      | Some account =>
          do old <- or_raise KeyError (dict_get account accounts);
          aggregate kinds moves bin' bout'
            (dict_set account (Decimal_add old (Move.amount move)) accounts)
      | None => Raise (unknown_kind (Move.kind move))
      end
  end.
Proof.
  unfold is_income. simpl. destruct (Decimal_gt0 (Move.amount move)); reflexivity.
Qed.

Lemma aggregate_sums (moves : list Move.t) :
  forall bin bout accounts bin' bout' accounts',
    aggregate kinds moves bin bout accounts = Ok (bin', bout', accounts') ->
    (value_sum (dict_values (Balance.items bin'))
     == value_sum (dict_values (Balance.items bin))
        + value_sum (map Move.amount (List.filter is_income moves)))%Q
    /\ (value_sum (dict_values (Balance.items bout'))
        == value_sum (dict_values (Balance.items bout))
           + value_sum (map Move.amount
                          (List.filter (fun mv => negb (is_income mv)) moves)))%Q
    /\ Balance.coef bin' = Balance.coef bin
    /\ Balance.coef bout' = Balance.coef bout.
Proof.
  induction moves as [|mv moves IH]; intros bin bout accounts bin' bout' accounts'.
  - simpl. intros [= <- <- <-]. repeat split; ring.
  - rewrite aggregate_cons. cbv zeta. intros H.
    assert (R : exists acc,
               aggregate kinds moves
                 (if is_income mv
                  then Balance.accumulate (Move.category mv) (Move.amount mv) bin
                  else bin)
                 (if is_income mv then bout
                  else Balance.accumulate (Move.category mv) (Move.amount mv) bout)
                 acc = Ok (bin', bout', accounts')).
    { destruct accounts as [|p accounts]; [eauto|].
      destruct (dict_get (Move.kind mv) kinds) as [account|]; [|discriminate].
      destruct (dict_get account (p :: accounts)) as [old|]; [|discriminate].
      simpl in H. eauto. }
    destruct R as [acc R]. apply IH in R as (I & O & CI & CO).
    cbn [List.filter map]. destruct (is_income mv); cbn [negb map value_sum].
    + rewrite value_sum_accumulate in I. repeat split; auto.
      rewrite I. ring.
    + rewrite value_sum_accumulate in O. repeat split; auto.
      rewrite O. ring.
Qed.


(** An income is a record whose amount, as a number, is above zero. *)
Lemma is_income_value (mv : Move.t) :
  is_income mv = true <-> (0 < Decimal_value (Move.amount mv))%Q.
Proof. apply gt0_value. Qed.

Lemma aggregate_without_accounts (moves : list Move.t) :
  forall bin bout,
  exists bin' bout', aggregate kinds moves bin bout [] = Ok (bin', bout', []).
Proof.
  induction moves as [|mv moves IH]; intros bin bout.
  - simpl. eauto.
  - rewrite aggregate_cons. cbv zeta. apply IH.
Qed.

Lemma aggregate_unknown_kind (moves : list Move.t) :
  forall bin bout accounts,
    accounts <> [] ->
    (forall k account, dict_get k kinds = Some account ->
                       dict_has account accounts = true) ->
    Exists (kind_unknown kinds) moves ->
    exists mv,
      In mv moves /\ kind_unknown kinds mv
      /\ aggregate kinds moves bin bout accounts
         = Raise (unknown_kind (Move.kind mv)).
Proof.
  induction moves as [|mv moves IH]; intros bin bout accounts NE Q E.
  - inversion E.
  - rewrite aggregate_cons. cbv zeta.
    destruct accounts as [|p accounts]; [contradiction|].
    destruct (dict_get (Move.kind mv) kinds) as [account|] eqn:K.
    + pose proof (Q _ _ K) as Has. unfold dict_has in Has.
      destruct (dict_get account (p :: accounts)) as [old|] eqn:G;
        [|discriminate].
      cbn [or_raise bind].
      destruct (IH (if is_income mv
                    then Balance.accumulate (Move.category mv) (Move.amount mv) bin
                    else bin)
                   (if is_income mv then bout
                    else Balance.accumulate (Move.category mv) (Move.amount mv)
                           bout)
                   (dict_set account (Decimal_add old (Move.amount mv))
                             (p :: accounts)))
        as (mv' & In' & U & R).
      * apply dict_set_not_empty.
      * intros k acc Hk. apply dict_has_set. eauto.
      * inversion E as [? ? U|? ? T]; subst; [|exact T].
        unfold kind_unknown in U. congruence.
      * exists mv'. split; [now right|]. auto.
    + exists mv. split; [now left|]. auto.
Qed.

Lemma insert_perm (x : Move.t) (l : list Move.t) :
  Permutation (insert x l) (x :: l).
Proof.
  induction l as [|y l IH]; simpl; [reflexivity|].
  destruct (Move.lt y x); [|reflexivity].
  rewrite IH. apply perm_swap.
Qed.

Lemma sorted_perm (l : list Move.t) : Permutation (sorted l) l.
Proof.
  induction l as [|x l IH]; simpl; [reflexivity|].
  rewrite insert_perm. now constructor.
Qed.

End Aggregation.




(** ** Splitting and joining *)

Lemma split_on_field (sep : char) (t rest : pystr) :
  free_of sep t = true ->
  split_on sep (t ++ sep :: rest) = t :: split_on sep rest.
Proof.
  induction t as [|c t IH]; simpl.
  - intros _. now rewrite N.eqb_refl.
  - intros H. apply andb_true_iff in H as [Hc Ht].
    apply negb_true_iff in Hc. rewrite Hc, (IH Ht). reflexivity.
Qed.

Lemma split_on_last (sep : char) (t : pystr) :
  free_of sep t = true -> split_on sep t = [t].
Proof.
  induction t as [|c t IH]; simpl; [reflexivity|].
  intros H. apply andb_true_iff in H as [Hc Ht].
  apply negb_true_iff in Hc. rewrite Hc, (IH Ht). reflexivity.
Qed.

Lemma split_on_join (sep : char) (l : list pystr) :
  l <> [] -> Forall (fun t => free_of sep t = true) l ->
  split_on sep (join [sep] l) = l.
Proof.
  induction l as [|t l IH]; [congruence|]. intros _ F.
  inversion F as [|? ? Ft Fl]; subst.
  destruct l as [|u l].
  - simpl. now apply split_on_last.
  - change (join [sep] (t :: u :: l)) with (t ++ sep :: join [sep] (u :: l)).
    rewrite (split_on_field _ _ _ Ft), IH; [reflexivity | discriminate | exact Fl].
Qed.

Lemma split_on_not_nil (sep : char) (s : pystr) : split_on sep s <> [].
Proof.
  destruct s as [|c s]; simpl; [discriminate|].
  destruct (N.eqb c sep); [discriminate|].
  destruct (split_on sep s); discriminate.
Qed.

Lemma join_split_on (sep : char) (s : pystr) :
  join [sep] (split_on sep s) = s.
Proof.
  induction s as [|c s IH]; [reflexivity|]. simpl.
  destruct (N.eqb c sep) eqn:E.
  - apply N.eqb_eq in E. subst c.
    destruct (split_on sep s) as [|t ts] eqn:S.
    + now apply split_on_not_nil in S.
    + change (join [sep] ([] :: t :: ts)) with (sep :: join [sep] (t :: ts)).
      now rewrite IH.
  - destruct (split_on sep s) as [|t ts] eqn:S.
    + now apply split_on_not_nil in S.
    + destruct ts as [|u ts]; simpl in *; now rewrite <- IH.
Qed.

Lemma split_on_free (sep : char) (s : pystr) :
  Forall (fun t => free_of sep t = true) (split_on sep s).
Proof.
  induction s as [|c s IH]; simpl.
  - repeat constructor.
  - destruct (N.eqb c sep) eqn:E.
    + constructor; [reflexivity | exact IH].
    + destruct (split_on sep s) as [|t ts]; [repeat constructor; simpl; now rewrite E|].
      inversion IH; subst. constructor; [|assumption].
      simpl. now rewrite E.
Qed.

Lemma split_ws_run (t : pystr) :
  forall cur rest,
    forallb (fun c => negb (isspace c)) t = true ->
    split_ws_aux cur (t ++ rest) = split_ws_aux (rev t ++ cur) rest.
Proof.
  induction t as [|c t IH]; intros cur rest H; [reflexivity|].
  simpl in H. apply andb_true_iff in H as [Hc Ht].
  apply negb_true_iff in Hc. simpl. rewrite Hc, (IH _ _ Ht).
  now rewrite <- app_assoc.
Qed.

Lemma rev_not_nil {A} (l : list A) : l <> [] -> rev l <> [].
Proof.
  intros H E. apply (f_equal (@rev A)) in E.
  rewrite rev_involutive in E. contradiction.
Qed.

Lemma split_ws_flush (cur : pystr) (c : char) (rest : pystr) :
  cur <> [] -> isspace c = true ->
  split_ws_aux cur (c :: rest) = rev cur :: split_ws_aux [] rest.
Proof.
  intros N C. simpl. rewrite C. destruct cur; [contradiction | reflexivity].
Qed.

Lemma split_ws_end (cur : pystr) :
  cur <> [] -> split_ws_aux cur [] = [rev cur].
Proof. destruct cur; [contradiction | reflexivity]. Qed.

Lemma split_ws_field (t : pystr) (c : char) (rest : pystr) :
  token t = true -> isspace c = true ->
  split_ws_aux [] (t ++ c :: rest) = t :: split_ws_aux [] rest.
Proof.
  intros T C. destruct t as [|x t]; [discriminate|]. unfold token in T.
  rewrite (split_ws_run _ _ _ T), app_nil_r.
  rewrite split_ws_flush, rev_involutive; auto.
  apply rev_not_nil. discriminate.
Qed.

Lemma split_ws_blank (s : pystr) :
  forallb isspace s = true -> split_ws_aux [] s = [].
Proof.
  induction s as [|c s IH]; [reflexivity|]. simpl.
  intros H. apply andb_true_iff in H as [Hc Hs]. rewrite Hc. auto.
Qed.

Lemma split_ws_last (t tail : pystr) :
  token t = true -> forallb isspace tail = true ->
  split_ws_aux [] (t ++ tail) = [t].
Proof.
  intros T B. destruct tail as [|c tail].
  - destruct t as [|x t]; [discriminate|]. unfold token in T.
    rewrite (split_ws_run _ _ _ T), app_nil_r.
    rewrite split_ws_end, rev_involutive; auto.
    apply rev_not_nil. discriminate.
  - simpl in B. apply andb_true_iff in B as [Bc Bt].
    rewrite (split_ws_field _ _ _ T Bc), (split_ws_blank _ Bt). reflexivity.
Qed.

Lemma firstn_length_app {A} (l r : list A) :
  firstn (List.length l) (l ++ r) = l.
Proof. induction l; simpl; [now destruct r | now f_equal]. Qed.

Lemma slice_between (x y z : char) (s : pystr) :
  slice_1_m2 (x :: s ++ [y; z]) = s.
Proof.
  unfold slice_1_m2. cbn [skipn].
  replace (List.length (x :: s ++ [y; z]) - 2 - 1) with (List.length s)
    by (simpl; rewrite length_app; simpl; lia).
  apply firstn_length_app.
Qed.

Lemma token_app (s t : pystr) :
  forallb (fun c => negb (isspace c)) s = true -> token t = true ->
  token (s ++ t) = true.
Proof.
  intros S T. destruct t as [|x t]; [discriminate|]. unfold token in *.
  destruct (s ++ x :: t) eqn:E; [destruct s; discriminate|].
  rewrite <- E, forallb_app, S, T. reflexivity.
Qed.

Lemma join_no_space (sep : char) (l : list pystr) :
  isspace sep = false ->
  Forall (fun k => forallb (fun c => negb (isspace c)) k = true) l ->
  forallb (fun c => negb (isspace c)) (join [sep] l) = true.
Proof.
  intros S F. induction F as [|k l Hk Hl IH]; [reflexivity|].
  destruct l as [|u l]; [exact Hk|].
  change (join [sep] (k :: u :: l)) with (k ++ sep :: join [sep] (u :: l)).
  rewrite forallb_app, Hk. cbn [forallb andb]. rewrite S. exact IH.
Qed.

(** ** Declarations *)

(** C2, as the code has it.  The kinds are what stands between the first
    character and the last two characters of the second field, split at the
    commas.  For a line
    ['++ <account> (<kind1>,...,<kindn>)<c> <amount>'], the kinds closed by
    [')'] and one more character [<c>] (a colon, say), the account is
    registered with its decimal amount and every kind is mapped to the
    account; the parser does this when such a line is the line at hand. *)
Theorem declaration_registers
  (a : MovesFile.args) (start_date end_date : datetime) (m i : nat)
  (reg : MovesFile.registry)
  (account : pystr) (ks : list pystr) (c : char) (amount tail : pystr)
  (d : Decimal) :
  token account = true ->
  Forall (fun k => forallb (fun x => negb (isspace x)) k = true
                   /\ free_of 44 k = true) ks ->
  isspace c = false ->
  token amount = true ->
  Decimal_of_str amount = Some d ->
  forallb isspace tail = true ->
  let line := py "++ " ++ account ++ py " (" ++ join [44%N] ks ++ [41%N; c]
              ++ [SP] ++ amount ++ tail in
  exists reg',
    MovesFile.declaration line reg = Ok reg'
    /\ MovesFile.parse_loop a start_date end_date m i line [] reg
       = Ok ([], reg')
    /\ dict_get account (MovesFile.accounts reg') = Some d
    /\ forall k, In k ks -> dict_get k (MovesFile.kinds reg') = Some account.
Proof.
  intros Ta Fk Sc Tm Dm Bt line.
  set (ktok := 40%N :: join [44%N] ks ++ [41%N; c]).
  assert (Tk : token ktok = true).
  { apply (token_app [40%N]); [reflexivity|].
    apply token_app; [|now simpl; rewrite Sc].
    apply join_no_space; [reflexivity|].
    eapply Forall_impl; [|exact Fk]. now intros k [H _]. }
  assert (E : split_ws line = [py "++"; account; ktok; amount]).
  { unfold split_ws, line.
    change (py "++ " ++ account ++ py " (" ++ join [44%N] ks ++ [41%N; c]
            ++ [SP] ++ amount ++ tail)
      with (py "++" ++ SP :: (account ++ SP :: (40%N :: join [44%N] ks
            ++ [41%N; c] ++ [SP] ++ amount ++ tail))).
    rewrite split_ws_field by reflexivity.
    rewrite (split_ws_field account) by auto.
    replace (40%N :: join [44%N] ks ++ [41%N; c] ++ [SP] ++ amount ++ tail)
      with (ktok ++ SP :: (amount ++ tail))
      by (unfold ktok; simpl; rewrite <- !app_assoc; reflexivity).
    rewrite (split_ws_field ktok) by auto.
    rewrite (split_ws_last amount) by auto. reflexivity. }
  assert (S : slice_1_m2 ktok = join [44%N] ks).
  { apply slice_between. }
  assert (D : MovesFile.declaration line reg
              = Ok (MovesFile.mkreg
                      (dict_set account d (MovesFile.accounts reg))
                      (fold_left (fun kd k => dict_set k account kd)
                         (split_on 44 (join [44%N] ks))
                         (MovesFile.kinds reg)))).
  { unfold MovesFile.declaration. rewrite E. cbn [tl]. rewrite S, Dm.
    reflexivity. }
  eexists. split; [exact D|]. split; [|split].
  - assert (P : startswith (py "++ ") line = true) by reflexivity.
    rewrite parse_loop_eq, P, D. reflexivity.
  - cbn [MovesFile.accounts]. apply dict_get_set_same.
  - intros k I. cbn [MovesFile.kinds].
    apply fold_set_kinds_in. left.
    rewrite split_on_join; [exact I | |].
    + intros ->. destruct I.
    + eapply Forall_impl; [|exact Fk]. now intros x [_ H].
Qed.

Lemma declaration_registers_witness :
  exists reg',
    MovesFile.declaration (py "++ bank (CB,TR): 1000.00" ++ [NL])
                          (MovesFile.mkreg [] []) = Ok reg'
    /\ dict_get (py "bank") (MovesFile.accounts reg')
       = Some (mkDecimal false 100000 (-2))
    /\ dict_get (py "CB") (MovesFile.kinds reg') = Some (py "bank")
    /\ dict_get (py "TR") (MovesFile.kinds reg') = Some (py "bank").
Proof.
  destruct (declaration_registers
              (MovesFile.mkargs [] None None false false None None)
              (mkdatetime 1900 1 1 0) (mkdatetime 2026 11 3 0) 0 1
              (MovesFile.mkreg [] [])
              (py "bank") [py "CB"; py "TR"] 58%N (py "1000.00") [NL]
              (mkDecimal false 100000 (-2)))
    as (reg' & D & _ & A & K);
    try reflexivity.
  - repeat constructor.
  - exists reg'. split; [exact D|]. split; [exact A|].
    split; apply K; simpl; auto.
Defined.

(** C2, as the specification words it, fails: with the kinds closed by [')']
    alone, '++ bank (CB,TR) 1000.00', the last two characters that are taken
    off are 'R' and ')': 'CB' and 'T' are mapped to 'bank', 'TR' is not. *)
Lemma declaration_bare_parenthesis :
  exists reg,
    MovesFile.parse
      (MovesFile.mkargs (py "++ bank (CB,TR) 1000.00
") None None false false None None)
      (mkdatetime 1900 1 1 0) (mkdatetime 2026 11 3 0) (MovesFile.mkreg [] [])
    = Ok ([], reg)
    /\ dict_get (py "bank") (MovesFile.accounts reg)
       = Some (mkDecimal false 100000 (-2))
    /\ dict_get (py "CB") (MovesFile.kinds reg) = Some (py "bank")
    /\ dict_get (py "T") (MovesFile.kinds reg) = Some (py "bank")
    /\ dict_get (py "TR") (MovesFile.kinds reg) = None
    /\ ~ (dict_get (py "CB") (MovesFile.kinds reg) = Some (py "bank")
          /\ dict_get (py "TR") (MovesFile.kinds reg) = Some (py "bank")).
Proof.
  eexists. split; [vm_compute; reflexivity|].
  repeat split. intros [_ H]. discriminate H.
Qed.

(** ** Characters and digits *)

(** A property of the code points below a bound is checked by running it. *)
Lemma below_by_computation (f : char -> bool) (n : nat) :
  forallb f (map N.of_nat (seq 0 n)) = true ->
  forall c, (c < N.of_nat n)%N -> f c = true.
Proof.
  intros H c L. rewrite forallb_forall in H. apply H.
  rewrite <- (N2Nat.id c). apply in_map. apply in_seq. lia.
Qed.

Lemma numeric_char_ascii (c : char) : numeric_char c = true -> (c < 70)%N.
Proof.
  unfold numeric_char, isdigit_char.
  rewrite !orb_true_iff, andb_true_iff, !N.eqb_eq, !N.leb_le. lia.
Qed.

Lemma numeric_char_plain (c : char) :
  numeric_char c = true ->
  isspace c = false /\ N.eqb c 95 = false /\ N.eqb c SP = false
  /\ N.eqb c NL = false /\ N.eqb c EURO = false.
Proof.
  intros H. pose proof (numeric_char_ascii c H) as L.
  pose proof (below_by_computation
                (fun c => negb (numeric_char c)
                          || (negb (isspace c) && negb (N.eqb c 95)
                              && negb (N.eqb c SP) && negb (N.eqb c NL)
                              && negb (N.eqb c EURO))) 70) as G.
  assert (G0 := G ltac:(vm_compute; reflexivity) c L). clear G.
  rename G0 into G.
  cbv beta in G. rewrite H in G. simpl in G.
  repeat (apply andb_true_iff in G as [G ?]).
  repeat split; now apply negb_true_iff.
Qed.

Lemma digit_numeric (c : char) : isdigit_char c = true -> numeric_char c = true.
Proof. intros H. unfold numeric_char. now rewrite H. Qed.

Lemma digit_val_bound (c : char) :
  isdigit_char c = true -> (digit_val c < 10)%N /\ digit_char (digit_val c) = c.
Proof.
  unfold isdigit_char, digit_val, digit_char.
  rewrite andb_true_iff, !N.leb_le. lia.
Qed.

Lemma digit_char_digit (k : N) :
  (k < 10)%N ->
  isdigit_char (digit_char k) = true /\ digit_val (digit_char k) = k.
Proof.
  unfold isdigit_char, digit_val, digit_char. intros H.
  rewrite andb_true_iff, !N.leb_le. lia.
Qed.

Lemma uint_chars_digits (u : Decimal.uint) :
  forallb isdigit_char (uint_chars u) = true.
Proof. induction u; simpl; auto. Qed.

Lemma chars_uint_chars (u : Decimal.uint) : chars_uint (uint_chars u) = u.
Proof. induction u; simpl; now f_equal. Qed.

Lemma str_of_N_digits (n : N) : isdigit (str_of_N n) = true.
Proof.
  unfold isdigit, str_of_N.
  pose proof (uint_chars_digits (N.to_uint n)) as H.
  destruct (uint_chars (N.to_uint n)) eqn:E; [|exact H].
  exfalso. destruct n as [|p]; [discriminate|].
  simpl in E. apply (DecimalPos.Unsigned.to_uint_nonnil p).
  destruct (Pos.to_uint p); [reflexivity | discriminate ..].
Qed.

Lemma int_of_str_of_N (n : N) : int_of_digits (str_of_N n) = n.
Proof.
  unfold int_of_digits, str_of_N. rewrite chars_uint_chars.
  apply DecimalN.Unsigned.of_to.
Qed.

Lemma int_of_leading_zeros (k : nat) (s : pystr) :
  int_of_digits (repeat (digit_char 0) k ++ s) = int_of_digits s.
Proof. induction k as [|k IH]; [reflexivity | exact IH]. Qed.

Lemma isdigit_all (s : pystr) :
  isdigit s = true <-> s <> [] /\ forallb isdigit_char s = true.
Proof.
  destruct s; simpl; split; try discriminate; try (intros [H _]; congruence).
  - intros H. split; [discriminate | exact H].
  - now intros [_ H].
Qed.

(** ** Dates *)

Lemma some_inj {A} (x y : A) : Some x = Some y -> x = y.
Proof. congruence. Qed.

Lemma strptime_inv (s : pystr) (dt : datetime) :
  strptime s = Some dt ->
  tod dt = 0%N /\ (year dt < 10000)%N /\ (month dt < 100)%N
  /\ (day dt < 100)%N /\ date_ok (year dt) (month dt) (day dt) = true.
Proof.
  destruct dt as [yy mm dd tt]. cbn [tod year month day].
  unfold strptime.
  destruct s as [|y1 [|y2 [|y3 [|y4 [|sl rest]]]]]; try discriminate.
  destruct (forallb isdigit_char [y1; y2; y3; y4] && N.eqb sl 47) eqn:Y;
    [|discriminate].
  apply andb_true_iff in Y as [Y _]. cbn [forallb] in Y.
  apply andb_true_iff in Y as [Y1 Y]. apply andb_true_iff in Y as [Y2 Y].
  apply andb_true_iff in Y as [Y3 Y]. apply andb_true_iff in Y as [Y4 _].
  destruct (split_on 47 rest) as [|ms [|ds [|? ?]]]; try discriminate.
  destruct (field_1_2 false ms) as [m|] eqn:M; [|discriminate].
  destruct (field_1_2 true ds) as [d|] eqn:D; [|discriminate].
  cbv zeta.
  destruct (digit_val_bound y1 Y1) as [B1 _].
  destruct (digit_val_bound y2 Y2) as [B2 _].
  destruct (digit_val_bound y3 Y3) as [B3 _].
  destruct (digit_val_bound y4 Y4) as [B4 _].
  remember (1000 * digit_val y1 + 100 * digit_val y2 + 10 * digit_val y3
            + digit_val y4)%N as y eqn:Ey.
  assert (By : (y < 10000)%N) by lia. clear Ey.
  match goal with |- (if ?c then _ else _) = _ -> _ => destruct c eqn:C end;
    [|discriminate].
  intros [= <- <- <- <-].
  split; [reflexivity|]. split; [exact By|].
  assert (Bm : (m < 100)%N).
  { unfold date_ok in *.
    repeat (apply andb_true_iff in C as [C ?]).
    match goal with H : (m <=? 12)%N = true |- _ => apply N.leb_le in H end.
    lia. }
  assert (Bd : (d < 100)%N).
  { clear - D. unfold field_1_2 in D.
    destruct ds as [|a [|b [|? ?]]]; try discriminate.
    - destruct (isdigit_char a) eqn:A; [|discriminate].
      destruct (digit_val_bound a A) as [Ba _].
      apply some_inj in D. lia.
    - destruct (isdigit_char a && isdigit_char b) eqn:A.
      + apply andb_true_iff in A as [A B].
        destruct (digit_val_bound a A) as [Ba _].
        destruct (digit_val_bound b B) as [Bb _].
        apply some_inj in D. lia.
      + destruct (true && N.eqb a SP && isdigit_char b) eqn:B;
          [|discriminate].
        apply andb_true_iff in B as [_ B].
        destruct (digit_val_bound b B) as [Bb _].
        apply some_inj in D. lia. }
  repeat split; auto.
Qed.

Lemma pad2_field (space_ok : bool) (n : N) :
  (n < 100)%N -> field_1_2 space_ok (pad2 n) = Some n.
Proof.
  intros H. unfold pad2, field_1_2.
  assert (A : (n / 10 mod 10 < 10)%N) by (apply N.mod_lt; lia).
  assert (B : (n mod 10 < 10)%N) by (apply N.mod_lt; lia).
  destruct (digit_char_digit _ A) as [-> ->].
  destruct (digit_char_digit _ B) as [-> ->].
  simpl. f_equal.
  rewrite (N.mod_small (n / 10)) by (apply N.Div0.div_lt_upper_bound; lia).
  rewrite (N.div_mod n 10) at 3 by lia. reflexivity.
Qed.

Lemma pad2_free (n : N) : free_of 47 (pad2 n) = true.
Proof.
  unfold pad2, free_of, digit_char. cbn [forallb].
  assert (A : (n / 10 mod 10 < 10)%N) by (apply N.mod_lt; lia).
  assert (B : (n mod 10 < 10)%N) by (apply N.mod_lt; lia).
  rewrite !andb_true_iff, !negb_true_iff, !N.eqb_neq.
  generalize dependent (n / 10 mod 10)%N. generalize dependent (n mod 10)%N.
  intros; repeat split; lia.
Qed.

Lemma pad4_value (n : N) :
  (n < 10000)%N ->
  forallb isdigit_char (pad4 n) = true
  /\ (1000 * digit_val (nth 0 (pad4 n) 0) + 100 * digit_val (nth 1 (pad4 n) 0)
      + 10 * digit_val (nth 2 (pad4 n) 0) + digit_val (nth 3 (pad4 n) 0))%N
     = n.
Proof.
  intros H. unfold pad4. cbn [nth forallb].
  assert (A : (n / 1000 mod 10 < 10)%N) by (apply N.mod_lt; lia).
  assert (B : (n / 100 mod 10 < 10)%N) by (apply N.mod_lt; lia).
  assert (C : (n / 10 mod 10 < 10)%N) by (apply N.mod_lt; lia).
  assert (D : (n mod 10 < 10)%N) by (apply N.mod_lt; lia).
  destruct (digit_char_digit _ A) as [-> ->].
  destruct (digit_char_digit _ B) as [-> ->].
  destruct (digit_char_digit _ C) as [-> ->].
  destruct (digit_char_digit _ D) as [-> ->].
  split; [reflexivity|].
  pose proof (below_by_computation
                (fun n => (1000 * (n / 1000 mod 10) + 100 * (n / 100 mod 10)
                           + 10 * (n / 10 mod 10) + n mod 10 =? n)%N)
                (100 * 100)) as G.
  apply N.eqb_eq. apply G; [vm_compute; reflexivity | exact H].
Qed.

(** Formatting a parsed date and parsing it again gives the date. *)
Lemma strptime_strftime (dt : datetime) :
  tod dt = 0%N -> (year dt < 10000)%N -> (month dt < 100)%N ->
  (day dt < 100)%N -> date_ok (year dt) (month dt) (day dt) = true ->
  strptime (strftime dt) = Some dt.
Proof.
  destruct dt as [y m d t]. cbn [tod year month day].
  intros -> Y M D OK. unfold strftime. cbn [year month day].
  destruct (pad4_value y Y) as [F V].
  unfold pad4 in *. cbn [nth app] in *. unfold strptime.
  rewrite F. cbn [andb N.eqb Pos.eqb].
  rewrite split_on_field by apply pad2_free.
  rewrite split_on_last by apply pad2_free.
  rewrite !pad2_field by assumption.
  rewrite V. unfold date_ok in OK. rewrite OK. reflexivity.
Qed.

Lemma strftime_plain (dt : datetime) :
  (year dt < 10000)%N ->
  forallb (fun c => isdigit_char c || N.eqb c 47) (strftime dt) = true
  /\ exists c s, strftime dt = c :: s /\ isdigit_char c = true.
Proof.
  intros Y. destruct (pad4_value _ Y) as [F _].
  unfold strftime, pad4, pad2 in *. cbn [forallb app] in *.
  repeat (apply andb_true_iff in F as [? F]).
  assert (A : forall n, isdigit_char (digit_char (n mod 10)) = true).
  { intros n. apply digit_char_digit. apply N.mod_lt. lia. }
  split.
  - rewrite !A. repeat match goal with H : isdigit_char _ = true |- _ =>
      rewrite H; clear H end. reflexivity.
  - eauto.
Qed.

(** ** Numerals *)

Lemma rstrip_none (f : char -> bool) (s : pystr) :
  forallb (fun c => negb (f c)) s = true -> rstrip_with f s = s.
Proof.
  induction s as [|c s IH]; [reflexivity|]. simpl. intros H.
  apply andb_true_iff in H as [Hc Hs]. apply negb_true_iff in Hc.
  rewrite rstrip_cons, (IH Hs), Hc. now destruct s.
Qed.

Lemma strip_none (f : char -> bool) (s : pystr) :
  forallb (fun c => negb (f c)) s = true -> strip_with f s = s.
Proof.
  intros H. unfold strip_with, lstrip_with. rewrite (rstrip_none f s H).
  destruct s as [|c s]; [reflexivity|]. simpl in *.
  apply andb_true_iff in H as [Hc _]. apply negb_true_iff in Hc.
  now rewrite Hc.
Qed.

Lemma filter_all {A} (f : A -> bool) (l : list A) :
  forallb f l = true -> List.filter f l = l.
Proof.
  induction l as [|x l IH]; [reflexivity|]. simpl. intros H.
  apply andb_true_iff in H as [Hx Hl]. now rewrite Hx, (IH Hl).
Qed.

Lemma forallb_impl {A} (f g : A -> bool) (l : list A) :
  (forall x, f x = true -> g x = true) ->
  forallb f l = true -> forallb g l = true.
Proof.
  intros I H. rewrite forallb_forall in *. auto.
Qed.

Lemma span_digits_app (ip rest : pystr) :
  forallb isdigit_char ip = true -> starts_non_digit rest ->
  span_digits (ip ++ rest) = (ip, rest).
Proof.
  intros D R. unfold span_digits.
  induction ip as [|c ip IH]; simpl.
  - destruct rest as [|x rest]; [reflexivity|]. simpl in *. now rewrite R.
  - simpl in D. apply andb_true_iff in D as [Dc Di]. rewrite Dc.
    injection (IH Di) as -> ->. reflexivity.
Qed.

Lemma str_signed_plain (e : Z) :
  forallb numeric_char (str_signed e) = true.
Proof.
  unfold str_signed.
  pose proof (str_of_N_digits (Z.abs_N e)) as D.
  apply isdigit_all in D as [_ D].
  cbn [forallb]. rewrite (forallb_impl _ _ _ digit_numeric D).
  now destruct (e <? 0)%Z.
Qed.

Lemma read_exponent_signed (e : Z) : read_exponent (str_signed e) = Some e.
Proof.
  unfold read_exponent, str_signed, read_sign.
  destruct (e <? 0)%Z eqn:E; cbn [N.eqb Pos.eqb];
    rewrite str_of_N_digits, int_of_str_of_N, N2Z.inj_abs_N; f_equal.
  - apply Z.ltb_lt in E. lia.
  - apply Z.ltb_ge in E. lia.
Qed.

Section Numeral.

Variables (neg : bool) (ip : pystr) (frac : option pystr) (ex : option Z).

Hypothesis ip_digits : isdigit ip = true.
Hypothesis fp_digits : forallb isdigit_char (frac_digits frac) = true.

Lemma numeral_plain : forallb numeric_char (numeral neg ip frac ex) = true.
Proof.
  unfold numeral.
  apply isdigit_all in ip_digits as [_ D].
  rewrite !forallb_app. rewrite (forallb_impl _ _ _ digit_numeric D).
  assert (F : forallb numeric_char (frac_part frac) = true).
  { pose proof fp_digits as G. unfold frac_part, frac_digits in *.
    destruct frac; [|reflexivity].
    cbn [forallb]. now rewrite (forallb_impl _ _ _ digit_numeric G). }
  assert (E : forallb numeric_char (exp_part ex) = true).
  { unfold exp_part. destruct ex; [|reflexivity].
    cbn [forallb]. now rewrite str_signed_plain. }
  rewrite F, E. now destruct neg.
Qed.

Lemma read_sign_numeral :
  read_sign (numeral neg ip frac ex)
  = (neg, ip ++ frac_part frac ++ exp_part ex).
Proof.
  unfold numeral. destruct neg; [reflexivity|].
  destruct ip as [|c r] eqn:I; [discriminate|].
  simpl in ip_digits. apply andb_true_iff in ip_digits as [Dc _].
  unfold isdigit_char in Dc. apply andb_true_iff in Dc as [L U].
  apply N.leb_le in L. apply N.leb_le in U.
  cbn [app read_sign].
  destruct (N.eqb_spec c 45); [lia|]. destruct (N.eqb_spec c 43); [lia|].
  reflexivity.
Qed.

Lemma exp_part_head : starts_non_digit (exp_part ex).
Proof. unfold exp_part. destruct ex; simpl; auto. Qed.

Lemma frac_part_head : starts_non_digit (frac_part frac ++ exp_part ex).
Proof.
  unfold frac_part. destruct frac; [reflexivity | apply exp_part_head].
Qed.

(** What the constructor reads in a numeral. *)
Lemma Decimal_of_numeral :
  Decimal_of_str (numeral neg ip frac ex)
  = Some (mkDecimal neg (int_of_digits (ip ++ frac_digits frac))
            (exp_value ex - Z.of_nat (List.length (frac_digits frac)))).
Proof.
  pose proof numeral_plain as P.
  unfold Decimal_of_str, strip.
  rewrite strip_none, filter_all.
  2:{ eapply forallb_impl; [|exact P]. intros c H.
      now destruct (numeric_char_plain c H) as (_ & -> & _). }
  2:{ eapply forallb_impl; [|exact P]. intros c H.
      now destruct (numeric_char_plain c H) as (-> & _). }
  rewrite read_sign_numeral. cbv beta iota.
  pose proof ip_digits as D. apply isdigit_all in D as [N D].
  rewrite (span_digits_app _ _ D frac_part_head). cbv beta iota.
  match goal with |- (let (_, _) := ?m in _) = _ =>
    assert (S : m = (frac_digits frac, exp_part ex))
  end.
  { pose proof fp_digits as G. unfold frac_part, frac_digits in *.
    destruct frac as [q|].
    - cbn [app N.eqb Pos.eqb].
      apply span_digits_app; [exact G | apply exp_part_head].
    - cbn [app]. unfold exp_part. destruct ex; reflexivity. }
  rewrite S. clear S. cbv beta iota.
  destruct (ip ++ frac_digits frac) as [|c l] eqn:E.
  - apply app_eq_nil in E as [E _]. contradiction.
  - unfold exp_part, exp_value. destruct ex as [e|].
    + cbn [N.eqb Pos.eqb orb]. rewrite read_exponent_signed. reflexivity.
    + reflexivity.
Qed.

End Numeral.

Lemma forallb_firstn_skipn {A} (f : A -> bool) (n : nat) (l : list A) :
  forallb f l = true ->
  forallb f (firstn n l) = true /\ forallb f (skipn n l) = true.
Proof.
  intros H. rewrite <- (firstn_skipn n l), forallb_app in H.
  now apply andb_true_iff in H.
Qed.

(** [str(d)] is a numeral that denotes [d]. *)
Lemma Decimal_str_numeral (d : Decimal) :
  exists ip frac ex,
    Decimal_str d = numeral (dsign d) ip frac ex
    /\ isdigit ip = true
    /\ forallb isdigit_char (frac_digits frac) = true
    /\ int_of_digits (ip ++ frac_digits frac) = dcoef d
    /\ (exp_value ex - Z.of_nat (List.length (frac_digits frac)))%Z = dexp d.
Proof.
  destruct d as [s c e]. unfold Decimal_str. cbn [dsign dcoef dexp]. cbv zeta.
  pose proof (str_of_N_digits c) as Dg. pose proof (int_of_str_of_N c) as I.
  remember (str_of_N c) as digits eqn:Ed. clear Ed.
  pose proof Dg as Dg'. apply isdigit_all in Dg' as [Ne Da].
  assert (Lpos : (1 <= Z.of_nat (List.length digits))%Z)
    by (destruct digits; [contradiction | simpl; lia]).
  remember (Z.of_nat (List.length digits)) as len eqn:El.
  remember (if (e <=? 0)%Z && (-6 <? e + len)%Z then (e + len)%Z else 1%Z)
    as dotplace eqn:Edp.
  assert (Hdp : (dotplace = e + len /\ e <= 0)%Z \/ dotplace = 1%Z).
  { subst dotplace. destruct (Z.leb_spec e 0); simpl; [|auto].
    destruct (-6 <? e + len)%Z; auto. }
  destruct (Z.leb_spec dotplace 0) as [A|A].
  - (* 0.000ddd *)
    assert (dotplace = e + len)%Z by lia.
    replace (e + len =? dotplace)%Z with true by (symmetry; apply Z.eqb_eq; lia).
    exists [digit_char 0],
           (Some (repeat (digit_char 0) (Z.to_nat (- dotplace)) ++ digits)),
           None.
    cbn [frac_digits exp_value].
    split; [|split; [|split; [|split]]].
    + unfold numeral. cbn [frac_part exp_part].
      destruct (dotplace <=? 0)%Z eqn:T; [|apply Z.leb_gt in T; lia].
      now rewrite !app_nil_r.
    + reflexivity.
    + rewrite forallb_app, Da, andb_true_r.
      clear. induction (Z.to_nat (- dotplace)); simpl; auto.
    + change ([digit_char 0] ++ repeat (digit_char 0) (Z.to_nat (- dotplace))
              ++ digits)
        with (repeat (digit_char 0) (S (Z.to_nat (- dotplace))) ++ digits).
      now rewrite int_of_leading_zeros.
    + rewrite length_app, repeat_length. lia.
  - destruct (Z.leb_spec len dotplace) as [B|B].
    + (* ddd or dE+n *)
      assert (Edl : dotplace = len) by lia.
      replace (Z.to_nat (dotplace - len)) with 0 by lia.
      cbn [repeat]. rewrite app_nil_r.
      exists digits, None,
             (if (e + len =? dotplace)%Z then None
              else Some (e + len - dotplace)%Z).
      cbn [frac_digits]. rewrite app_nil_r.
      split; [|split; [|split; [|split]]]; auto.
      * unfold numeral. cbn [frac_part app].
        destruct (dotplace <=? 0)%Z eqn:T; [apply Z.leb_le in T; lia|].
        destruct (len <=? dotplace)%Z eqn:U; [|apply Z.leb_gt in U; lia].
        cbn [app]. destruct (e + len =? dotplace)%Z; reflexivity.
      * destruct (Z.eqb_spec (e + len) dotplace); cbn [exp_value List.length];
          lia.
    + (* d.ddd with or without exponent *)
      exists (firstn (Z.to_nat dotplace) digits),
             (Some (skipn (Z.to_nat dotplace) digits)),
             (if (e + len =? dotplace)%Z then None
              else Some (e + len - dotplace)%Z).
      cbn [frac_digits].
      destruct (forallb_firstn_skipn isdigit_char (Z.to_nat dotplace) digits Da)
        as [F S].
      rewrite firstn_skipn.
      split; [|split; [|split; [|split]]]; auto.
      * unfold numeral. cbn [frac_part].
        destruct (dotplace <=? 0)%Z eqn:T; [apply Z.leb_le in T; lia|].
        destruct (len <=? dotplace)%Z eqn:U; [apply Z.leb_le in U; lia|].
        destruct (e + len =? dotplace)%Z; reflexivity.
      * apply isdigit_all. split; [|exact F].
        destruct digits as [|x ds]; [contradiction|].
        destruct (Z.to_nat dotplace) eqn:T; [lia | discriminate].
      * rewrite length_skipn.
        destruct (Z.eqb_spec (e + len) dotplace); cbn [exp_value]; lia.
Qed.

(** Reading what [str] writes gives the Decimal back. *)
Lemma Decimal_of_str_str (d : Decimal) : Decimal_of_str (Decimal_str d) = Some d.
Proof.
  destruct (Decimal_str_numeral d) as (ip & frac & ex & -> & Di & Df & C & E).
  rewrite Decimal_of_numeral by assumption.
  rewrite C, E. now destruct d.
Qed.

Lemma Decimal_str_plain (d : Decimal) :
  forallb numeric_char (Decimal_str d) = true.
Proof.
  destruct (Decimal_str_numeral d) as (ip & frac & ex & -> & Di & Df & _).
  now apply numeral_plain.
Qed.

(** ** Lines of a file *)

Lemma readlines_shape (s : pystr) : Forall line_shape (readlines s).
Proof.
  induction s as [|c s IH]; simpl; [constructor|].
  destruct (N.eqb c NL) eqn:E.
  - apply N.eqb_eq in E. subst c. constructor; [|exact IH].
    exists []. auto.
  - assert (One : line_shape [c]).
    { exists [c]. split; [now right|]. simpl. now rewrite E. }
    destruct s as [|d s]; [now repeat constructor|].
    destruct (readlines (d :: s)) as [|l ls]; [now repeat constructor|].
    inversion IH as [|? ? (b & S & F) Hls]; subst.
    constructor; [|exact Hls].
    exists (c :: b). split.
    + destruct S as [-> | ->]; auto.
    + simpl. now rewrite E.
Qed.

Lemma file_lines_shape (content line : pystr) :
  In line (file_lines content) -> line_shape line.
Proof.
  intros H. pose proof (readlines_shape (universal_newlines content)) as F.
  rewrite Forall_forall in F. now apply F.
Qed.

Lemma free_of_app (c : char) (s t : pystr) :
  free_of c (s ++ t) = true <-> free_of c s = true /\ free_of c t = true.
Proof. unfold free_of. now rewrite forallb_app, andb_true_iff. Qed.

Lemma strip_free (c : char) (f : char -> bool) (s : pystr) :
  free_of c s = true -> free_of c (strip_with f s) = true.
Proof.
  intros H. unfold strip_with, lstrip_with.
  destruct (rstrip_prefix f s) as (t & E & _).
  rewrite E in H. apply free_of_app in H as [H _].
  destruct (dropwhile_suffix f (rstrip_with f s)) as (u & E' & _).
  rewrite E' in H. now apply free_of_app in H as [_ H].
Qed.

Lemma strip_line_free (line : pystr) :
  line_shape line -> free_of NL (strip line) = true.
Proof.
  intros (b & [-> | ->] & F); unfold strip.
  - unfold strip_with. rewrite rstrip_app_drop by reflexivity.
    now apply (strip_free NL isspace b).
  - now apply strip_free.
Qed.

(** What [strip] leaves has no white space at its ends. *)
Lemma strip_ends (f : char -> bool) (s : pystr) :
  strip_with f s = [] \/
  exists t x, strip_with f s = t ++ [x] /\ f x = false.
Proof.
  unfold strip_with, lstrip_with.
  destruct (rstrip_last f s) as [-> | (t & x & -> & X)]; [now left|].
  right. rewrite dropwhile_snoc.
  destruct (dropwhile f t) as [|y u].
  - rewrite X. exists [], x. auto.
  - exists (y :: u), x. auto.
Qed.

Lemma join_free (c sep : char) (l : list pystr) :
  free_of c (join [sep] l) = true -> Forall (fun t => free_of c t = true) l.
Proof.
  induction l as [|t l IH]; [constructor|].
  destruct l as [|u l].
  - simpl. intros H. now repeat constructor.
  - change (join [sep] (t :: u :: l)) with (t ++ [sep] ++ join [sep] (u :: l)).
    intros H. apply free_of_app in H as [Ht H].
    apply free_of_app in H as [_ H]. constructor; auto.
Qed.

Lemma free_of_join (c sep : char) (l : list pystr) :
  N.eqb sep c = false ->
  Forall (fun t => free_of c t = true) l -> free_of c (join [sep] l) = true.
Proof.
  intros S F. induction F as [|t l Ht Hl IH]; [reflexivity|].
  destruct l as [|u l]; [exact Ht|].
  change (join [sep] (t :: u :: l)) with (t ++ [sep] ++ join [sep] (u :: l)).
  apply free_of_app. split; [exact Ht|].
  apply free_of_app. split; [|exact IH]. simpl. now rewrite S.
Qed.

Lemma join_last (sep : pystr) (l : list pystr) (t : pystr) :
  exists p, join sep (l ++ [t]) = p ++ t.
Proof.
  induction l as [|u l (p & E)].
  - exists []. reflexivity.
  - destruct l as [|v l].
    + exists (u ++ sep). simpl. now rewrite app_assoc.
    + exists (u ++ sep ++ p).
      change (join sep ((u :: v :: l) ++ [t]))
        with (u ++ sep ++ join sep ((v :: l) ++ [t])).
      rewrite E. now rewrite !app_assoc.
Qed.

Lemma takewhile_line (s t : pystr) :
  free_of NL s = true -> first_line (s ++ NL :: t) = s.
Proof.
  unfold first_line, free_of. induction s as [|c s IH]; simpl.
  - reflexivity.
  - intros H. apply andb_true_iff in H as [Hc Hs].
    rewrite Hc. f_equal. auto.
Qed.

(** ** The text of a record and its header line *)

Section Header.

Import Move.

Lemma init_header_fields (m i : nat) (line : pystr) (mv : t) :
  line_shape line -> init m i line = Ok mv -> header_fields mv.
Proof.
  intros Sh. unfold init.
  destruct (split_on SP (strip line))
    as [|ds [|am [|k [|c [|st [|? ?]]]]]] eqn:S; try discriminate.
  destruct (strptime ds) as [dt|] eqn:D; [|discriminate].
  destruct (Decimal_of_str (rstrip_chars [EURO] am)) as [a|]; [|discriminate].
  cbn [or_raise bind]. intros [= <-]. unfold header_fields.
  cbn [date kind category status].
  pose proof (split_on_free SP (strip line)) as Fs.
  pose proof (join_split_on SP (strip line)) as J.
  pose proof (strip_line_free line Sh) as Fn.
  rewrite S in Fs, J. rewrite <- J in Fn. apply join_free in Fn.
  split; [exact (strptime_inv ds dt D)|]. split.
  - inversion Fs as [|? ? _ Fs1]; subst. inversion Fs1 as [|? ? _ Fs2]; subst.
    inversion Fn as [|? ? _ Fn1]; subst. inversion Fn1 as [|? ? _ Fn2]; subst.
    clear - Fs2 Fn2.
    inversion Fs2 as [|? ? A1 Fs3]; subst. inversion Fs3 as [|? ? A2 Fs4]; subst.
    inversion Fs4 as [|? ? A3 _]; subst.
    inversion Fn2 as [|? ? B1 Fn3]; subst. inversion Fn3 as [|? ? B2 Fn4]; subst.
    inversion Fn4 as [|? ? B3 _]; subst.
    repeat constructor; assumption.
  - destruct (strip_ends isspace line) as [E | (t & x & E & X)];
      fold (strip line) in E; rewrite <- J in E.
    + exfalso. cbn [join] in E. apply app_eq_nil in E as [_ E]. discriminate E.
    + change (join [SP] [ds; am; k; c; st])
        with (ds ++ [SP] ++ am ++ [SP] ++ k ++ [SP] ++ c ++ [SP] ++ st) in E.
      rewrite !app_assoc in E.
      destruct (exists_last (l := st)) as (st' & y & ->).
      * intros ->. rewrite app_nil_r in E. apply app_inj_tail in E as [_ E].
        subst x. discriminate X.
      * rewrite app_assoc in E. apply app_inj_tail in E as [_ ->].
        exists st', x. auto.
Qed.

Lemma add_same_header (mv : t) (line : pystr) : same_header (add mv line) mv.
Proof.
  unfold add, same_header.
  destruct (strip line); [auto|]. destruct (description mv); cbn; auto.
Qed.

Lemma fold_add_same_header (lines : list pystr) :
  forall mv, same_header (fold_left add lines mv) mv.
Proof.
  induction lines as [|l lines IH]; intros mv; simpl.
  - unfold same_header. auto.
  - destruct (IH (add mv l)) as (A & B & C & D & E).
    destruct (add_same_header mv l) as (A' & B' & C' & D' & E').
    unfold same_header. repeat split; congruence.
Qed.

Lemma header_fields_same (a b : t) :
  same_header a b -> header_fields b -> header_fields a.
Proof.
  intros (A & B & C & D & E). unfold header_fields.
  now rewrite A, C, D, E.
Qed.

Lemma template_header (mv : t) :
  exists rest, template mv = NL :: header_line mv ++ NL :: rest.
Proof.
  unfold template, header_line. cbn [join]. eexists.
  rewrite <- !app_assoc. reflexivity.
Qed.

Variable mv : t.
Hypothesis fields : header_fields mv.

Lemma header_tokens :
  Forall (fun t => free_of SP t = true /\ free_of NL t = true)
    [strftime (date mv); Decimal_str (amount mv) ++ [EURO];
     kind mv; category mv; status mv].
Proof.
  destruct fields as ((_ & Y & _) & F & _).
  constructor; [|constructor; [|exact F]].
  - destruct (strftime_plain (date mv) Y) as [P _].
    split; (eapply forallb_impl; [|exact P]); intros c H;
      apply orb_true_iff in H as [H|H].
    + now destruct (numeric_char_plain c (digit_numeric c H)) as (_ & _ & -> & _).
    + apply N.eqb_eq in H. now subst c.
    + now destruct (numeric_char_plain c (digit_numeric c H))
        as (_ & _ & _ & -> & _).
    + apply N.eqb_eq in H. now subst c.
  - pose proof (Decimal_str_plain (amount mv)) as P.
    split; apply free_of_app; (split; [|reflexivity]);
      (eapply forallb_impl; [|exact P]); intros c H.
    + now destruct (numeric_char_plain c H) as (_ & _ & -> & _).
    + now destruct (numeric_char_plain c H) as (_ & _ & _ & -> & _).
Qed.

Lemma header_line_free : free_of NL (header_line mv) = true.
Proof.
  apply free_of_join; [reflexivity|].
  eapply Forall_impl; [|exact header_tokens]. now intros t [_ H].
Qed.

Lemma header_line_head :
  exists c s, header_line mv = c :: s /\ isspace c = false.
Proof.
  destruct fields as ((_ & Y & _) & _).
  destruct (strftime_plain (date mv) Y) as [_ (c & s & E & D)].
  unfold header_line. cbn [join]. rewrite E. cbn [app].
  eexists _, _. split; [reflexivity|].
  now destruct (numeric_char_plain c (digit_numeric c D)) as (-> & _).
Qed.

Lemma header_line_last :
  exists s x, header_line mv = s ++ [x] /\ isspace x = false.
Proof.
  destruct fields as (_ & _ & (t & x & E & X)).
  destruct (join_last [SP] [strftime (date mv);
                            Decimal_str (amount mv) ++ [EURO];
                            kind mv; category mv] (status mv)) as [p J].
  exists (p ++ t), x. split; [|exact X].
  unfold header_line. transitivity (p ++ status mv); [exact J|].
  rewrite E. apply app_assoc.
Qed.

Lemma strip_header_line : strip (header_line mv) = header_line mv.
Proof.
  destruct header_line_head as (c & s & E & C).
  destruct header_line_last as (l & x & E' & X).
  unfold strip, strip_with, lstrip_with.
  rewrite E', (rstrip_snoc_keep _ _ _ X), <- E', E. simpl. now rewrite C.
Qed.

(** The text of the record begins with its header line. *)
Lemma str_first_line : first_line (str mv) = header_line mv.
Proof.
  destruct (template_header mv) as [rest T].
  destruct header_line_head as (c & s & E & C).
  destruct header_line_last as (l & x & E' & X).
  assert (A1 : rstrip_with isspace (NL :: header_line mv)
               = NL :: header_line mv).
  { rewrite E'. change (NL :: l ++ [x]) with ((NL :: l) ++ [x]).
    apply rstrip_snoc_keep, X. }
  assert (A2 : forall z, dropwhile isspace (NL :: header_line mv ++ z)
                         = header_line mv ++ z).
  { intros z. rewrite E. cbn [app dropwhile]. rewrite C.
    change (isspace NL) with true. reflexivity. }
  assert (S : exists tail, strip (template mv) ++ [NL; NL]
                           = header_line mv ++ NL :: tail).
  { rewrite T. unfold strip, strip_with, lstrip_with.
    change (NL :: header_line mv ++ NL :: rest)
      with ((NL :: header_line mv) ++ NL :: rest).
    destruct (rstrip_with isspace (NL :: rest)) as [|y r] eqn:R.
    - destruct (rstrip_prefix isspace (NL :: rest)) as (t & Et & Ft).
      rewrite R in Et. cbn [app] in Et. rewrite <- Et in Ft.
      rewrite (rstrip_app_drop _ _ _ Ft), A1.
      exists [NL]. pose proof (A2 []) as A3. rewrite app_nil_r in A3.
      rewrite A3. reflexivity.
    - rewrite rstrip_app_keep by (rewrite R; discriminate).
      rewrite R. assert (y = NL) as ->.
      { rewrite rstrip_cons in R. destruct (rstrip_with isspace rest).
        - discriminate R.
        - now injection R. }
      exists (r ++ [NL; NL]). cbn [app]. rewrite A2.
      now rewrite <- app_assoc. }
  destruct S as [tail S]. unfold str. rewrite S.
  apply takewhile_line, header_line_free.
Qed.

(** Reading the header line gives the five fields. *)
Lemma init_header_line (m i : nat) :
  init m i (header_line mv)
  = Ok (mk m i (date mv) (amount mv) (category mv) (status mv) (kind mv)
           None []).
Proof.
  unfold init. rewrite strip_header_line.
  unfold header_line. rewrite split_on_join.
  2:{ discriminate. }
  2:{ eapply Forall_impl; [|exact header_tokens]. now intros t [H _]. }
  destruct fields as ((T & Y & M & D & OK) & _).
  rewrite (strptime_strftime _ T Y M D OK). cbn [or_raise bind].
  assert (R : rstrip_chars [EURO] (Decimal_str (amount mv) ++ [EURO])
              = Decimal_str (amount mv)).
  { unfold rstrip_chars. rewrite rstrip_app_drop by reflexivity.
    apply rstrip_none. eapply forallb_impl; [|apply Decimal_str_plain].
    intros c H. destruct (numeric_char_plain c H) as (_ & _ & _ & _ & Eu).
    unfold char_in. cbn [existsb]. now rewrite Eu. }
  rewrite R, Decimal_of_str_str. reflexivity.
Qed.

End Header.



(** * Further properties of the code *)

(** ** Reading the file *)

Lemma readlines_concat (s : pystr) : concat (readlines s) = s.
Proof.
  induction s as [|c s IH]; [reflexivity|]. simpl.
  destruct (N.eqb c NL); [simpl; now rewrite IH|].
  destruct s as [|d s]; [reflexivity|].
  destruct (readlines (d :: s)) as [|l ls]; [discriminate IH|].
  simpl in *. now rewrite IH.
Qed.

Lemma readlines_not_empty (s : pystr) :
  Forall (fun l => l <> []) (readlines s).
Proof.
  induction s as [|c s IH]; simpl; [constructor|].
  destruct (N.eqb c NL); [constructor; [discriminate | exact IH]|].
  destruct s as [|d s]; [repeat constructor; discriminate|].
  destruct (readlines (d :: s)) as [|l ls];
    [repeat constructor; discriminate|].
  inversion IH; subst. constructor; [discriminate | assumption].
Qed.

Lemma universal_newlines_no_cr (s : pystr) :
  free_of 13 (universal_newlines s) = true.
Proof.
  induction s as [|c s IH]; [reflexivity|].
  cbn [universal_newlines]. destruct (N.eqb c 13) eqn:E.
  - destruct s as [|d s]; [reflexivity|].
    destruct (N.eqb d 10); [exact IH|].
    cbn [free_of forallb]. exact IH.
  - cbn [free_of forallb]. rewrite E. exact IH.
Qed.

Lemma free_of_concat (c : char) (l : list pystr) :
  free_of c (concat l) = true -> Forall (fun t => free_of c t = true) l.
Proof.
  induction l as [|t l IH]; [constructor|]. simpl. intros H.
  apply free_of_app in H as [Ht Hl]. constructor; auto.
Qed.

Lemma line_shape_removelast (l : pystr) :
  line_shape l -> free_of NL (removelast l) = true.
Proof.
  intros (b & [-> | ->] & F).
  - now rewrite removelast_last.
  - destruct b as [|x b] using rev_ind; [reflexivity|].
    rewrite removelast_last. now apply free_of_app in F as [F _].
Qed.

(** X1.  Iterating over the file loses nothing: the lines put one after the
    other are the text (after the translation of the line ends); no line is
    empty, none holds a carriage return, and a line break stands at the end
    of a line only. *)
Theorem file_lines_lossless (content : pystr) :
  concat (file_lines content) = universal_newlines content
  /\ Forall (fun l => l <> [] /\ free_of 13 l = true
                      /\ free_of NL (removelast l) = true)
            (file_lines content).
Proof.
  unfold file_lines. split; [apply readlines_concat|].
  pose proof (readlines_not_empty (universal_newlines content)) as N.
  pose proof (readlines_shape (universal_newlines content)) as S.
  pose proof (universal_newlines_no_cr content) as C.
  rewrite <- (readlines_concat (universal_newlines content)) in C.
  apply free_of_concat in C.
  rewrite Forall_forall in *. intros l I. repeat split.
  - now apply N.
  - now apply C.
  - apply line_shape_removelast. now apply S.
Qed.

(** ** The iterator *)

Lemma iterator_loop_plain (lines : list pystr) :
  forall n,
    MovesFile.iterator_loop MovesFile.PNone n lines
    = List.filter is_content (numbered_from (S n) lines).
Proof.
  induction lines as [|l lines IH]; intros n; [reflexivity|].
  unfold numbered_from in *. cbn [MovesFile.iterator_loop andb].
  cbn [List.length seq combine List.filter]. unfold is_content at 1.
  cbn [snd]. rewrite IH.
  destruct (MovesFile.first_char_in l (py "$!#-")); reflexivity.
Qed.

(** X2.  With no period the iterator yields every line of the file whose
    first character is none of [$], [!], [#], [-], in the order of the file
    and each with its number in the file, counted from 1; it yields nothing
    else. *)
Theorem iterator_without_period
  (i : pystr) (s e g : option pystr) (p x : bool) :
  MovesFile.iterator (MovesFile.mkargs i s e p x g None)
  = List.filter is_content (numbered (file_lines i))
  /\ MovesFile.iterator (MovesFile.mkargs i s e p x g (Some []))
  = List.filter is_content (numbered (file_lines i)).
Proof.
  split; apply iterator_loop_plain.
Qed.

Lemma iterator_loop_seek (marker : pystr) (pre : list pystr) :
  forall n ml rest,
    Forall (fun l => startswith marker l = false) pre ->
    startswith marker ml = true ->
    MovesFile.iterator_loop (MovesFile.PMarker marker) n (pre ++ ml :: rest)
    = MovesFile.iterator_loop MovesFile.PTrue (n + List.length pre + 1) rest.
Proof.
  induction pre as [|l pre IH]; intros n ml rest F M.
  - cbn [app MovesFile.iterator_loop List.length]. rewrite M.
    f_equal. lia.
  - inversion F as [|? ? Hl Hp]; subst.
    cbn [app MovesFile.iterator_loop List.length]. rewrite Hl.
    rewrite (IH _ _ _ Hp M). f_equal. lia.
Qed.

Lemma iterator_loop_window (mid : list pystr) :
  forall n rest,
    Forall (fun l => startswith (py "!") l = false) mid ->
    match rest with
    | [] => True
    | l :: _ => startswith (py "!") l = true
    end ->
    MovesFile.iterator_loop MovesFile.PTrue n (mid ++ rest)
    = List.filter is_content (numbered_from (S n) mid).
Proof.
  induction mid as [|l mid IH]; intros n rest F R.
  - destruct rest as [|r rest]; [reflexivity|].
    cbn [app MovesFile.iterator_loop andb]. now rewrite R.
  - inversion F as [|? ? Hl Hm]; subst.
    unfold numbered_from in *.
    cbn [app MovesFile.iterator_loop andb]. rewrite Hl.
    cbn [List.length seq combine List.filter]. unfold is_content at 1.
    cbn [snd]. rewrite (IH _ _ Hm R).
    destruct (MovesFile.first_char_in l (py "$!#-")); reflexivity.
Qed.

(** X3.  With a period name, the iterator passes over the lines up to and
    with the first one that starts with ['-- ' + name]; from there it yields
    the lines that are no comments, with their numbers in the file, and it
    stops for good at the first line that starts with [!]: what comes after
    that line is not read. *)
Theorem iterator_period_window
  (i : pystr) (s e g : option pystr) (p x : bool) (c : char) (name : pystr)
  (pre : list pystr) (ml : pystr) (mid rest : list pystr) :
  file_lines i = pre ++ ml :: mid ++ rest ->
  Forall (fun l => startswith (py "-- " ++ c :: name) l = false) pre ->
  startswith (py "-- " ++ c :: name) ml = true ->
  Forall (fun l => startswith (py "!") l = false) mid ->
  match rest with
  | [] => True
  | l :: _ => startswith (py "!") l = true
  end ->
  MovesFile.iterator (MovesFile.mkargs i s e p x g (Some (c :: name)))
  = List.filter is_content (numbered_from (List.length pre + 2) mid).
Proof.
  intros E Fp M Fm R. unfold MovesFile.iterator.
  cbn [MovesFile.arg_period MovesFile.arg_i]. rewrite E.
  rewrite (iterator_loop_seek _ _ _ _ _ Fp M).
  rewrite (iterator_loop_window _ _ _ Fm R).
  f_equal. f_equal. lia.
Qed.

Lemma iterator_period_window_witness :
  MovesFile.iterator
    (MovesFile.mkargs (py "2019/12/31 -1€ CB food P
-- 2020
2020/01/15 -42.50€ CB food P
# a comment
    lunch
! end of 2020
2020/02/01 -3€ CB food P
") None None false false None (Some (py "2020")))
  = [(3, py "2020/01/15 -42.50€ CB food P" ++ [NL]);
     (5, py "    lunch" ++ [NL])].
Proof.
  rewrite (iterator_period_window _ None None None false false 50%N (py "020")
             [py "2019/12/31 -1€ CB food P" ++ [NL]]
             (py "-- 2020" ++ [NL])
             [py "2020/01/15 -42.50€ CB food P" ++ [NL];
              py "# a comment" ++ [NL]; py "    lunch" ++ [NL]]
             [py "! end of 2020" ++ [NL];
              py "2020/02/01 -3€ CB food P" ++ [NL]]).
  - vm_compute. reflexivity.
  - vm_compute. reflexivity.
  - repeat first [apply Forall_nil | apply Forall_cons; [vm_compute; reflexivity|]].
  - vm_compute. reflexivity.
  - repeat first [apply Forall_nil | apply Forall_cons; [vm_compute; reflexivity|]].
  - vm_compute. reflexivity.
Defined.

(** ** The description of a record *)

Lemma add_all_description_set (lines : list pystr) :
  forall (mv : Move.t) (d : pystr),
    Move.description mv = Some d ->
    Move.description (fold_left Move.add lines mv) = Some d.
Proof.
  induction lines as [|l lines IH]; intros mv d D; [exact D|]. simpl.
  destruct (nonblank l) eqn:B.
  - apply (IH _ d). now apply add_next.
  - rewrite (add_blank _ _ B). now apply IH.
Qed.

(** X4.  The description of a record is its first continuation line that is
    not blank, without the white space at its two ends; a record none of
    whose continuation lines has text has no description. *)
Theorem description_is_first_text_line
  (m i : nat) (d : datetime) (a : Decimal) (c s k : pystr)
  (lines : list pystr) :
  Move.description (fold_left Move.add lines (Move.mk m i d a c s k None []))
  = option_map strip (hd_error (List.filter nonblank lines)).
Proof.
  generalize (eq_refl : Move.description (Move.mk m i d a c s k None []) = None).
  generalize (Move.mk m i d a c s k None []) as mv.
  induction lines as [|l lines IH]; intros mv D; [exact D|]. simpl.
  destruct (nonblank l) eqn:B.
  - destruct (add_first mv l B D) as [D' _].
    now rewrite (add_all_description_set _ _ _ D').
  - rewrite (add_blank _ _ B). now apply IH.
Qed.

(** ** What the parser emits *)

Section Provenance.

Import MovesFile.

Variables (a : args) (start_date end_date : datetime).

Lemma body_run (fd : list (nat * pystr)) :
  forall k move i line,
  exists conts i' line' fd',
    body k move i line fd
    = k (fold_left Move.add (map snd conts) move) i' line' fd'
    /\ Forall (fun c => is_start (snd c) = false) conts
    /\ (((i, line) :: fd = conts ++ (i', line') :: fd'
         /\ is_start line' = true)
        \/ ((i, line) :: fd = conts /\ fd' = [])).
Proof.
  induction fd as [|[j l] fd IH]; intros k move i line; simpl.
  - destruct (is_start line) eqn:S.
    + exists [], i, line, []. auto.
    + exists [(i, line)], i, line, []. repeat split; auto.
  - destruct (is_start line) eqn:S.
    + exists [], i, line, ((j, l) :: fd). auto.
    + destruct (IH k (Move.add move line) j l)
        as (conts & i' & l' & fd' & E & F & H).
      exists ((i, line) :: conts), i', l', fd'. split; [exact E|].
      split; [constructor; auto|].
      destruct H as [[H1 H2] | [H1 H2]]; [left | right];
        split; auto; simpl; now rewrite H1.
Qed.

Lemma parse_loop_last m i line reg moves reg' :
  parse_loop a start_date end_date m i line [] reg = Ok (moves, reg') ->
  moves = [].
Proof.
  rewrite parse_loop_eq.
  destruct (startswith (py "++ ") line).
  - destruct (declaration line reg); [|discriminate].
    simpl. now intros [= <- _].
  - destruct (is_start line).
    + destruct (Move.init (S m) i line); [|discriminate].
      simpl. now intros [= <- _].
    + now intros [= <- _].
Qed.

Lemma assembled_from_later (pre stream : list (nat * pystr)) (mv : Move.t) :
  assembled_from stream mv -> assembled_from (pre ++ stream) mv.
Proof.
  intros (p & l & conts & post & mv0 & E & H).
  exists (pre ++ p), l, conts, post, mv0. split; [|exact H].
  now rewrite E, app_assoc.
Qed.

Lemma init_numbers (m i : nat) (line : pystr) (mv : Move.t) :
  Move.init m i line = Ok mv -> Move.index mv = m /\ Move.line_number mv = i.
Proof.
  unfold Move.init.
  destruct (split_on SP (strip line))
    as [|ds [|am [|k [|c [|st [|? ?]]]]]]; try discriminate.
  destruct (strptime ds); [|discriminate].
  destruct (Decimal_of_str (rstrip_chars [EURO] am)); [|discriminate].
  cbn [or_raise bind]. intros [= <-]. auto.
Qed.

Lemma add_numbers (lines : list pystr) :
  forall mv,
    Move.index (fold_left Move.add lines mv) = Move.index mv
    /\ Move.line_number (fold_left Move.add lines mv) = Move.line_number mv.
Proof.
  induction lines as [|l lines IH]; intros mv; [auto|]. simpl.
  destruct (IH (Move.add mv l)) as [-> ->].
  unfold Move.add. destruct (strip l); [auto|].
  destruct (Move.description mv); auto.
Qed.

Lemma parse_loop_provenance n :
  forall fd, List.length fd <= n ->
  forall m i line reg moves reg',
    parse_loop a start_date end_date m i line fd reg = Ok (moves, reg') ->
    Forall (assembled_from ((i, line) :: fd)) moves
    /\ Forall (fun mv => m < Move.index mv) moves
    /\ StronglySorted (fun x y => Move.index x < Move.index y) moves.
Proof.
  induction n as [|n IH]; intros fd L m i line reg moves reg' H.
  - destruct fd; [|simpl in L; lia].
    apply parse_loop_last in H. subst. repeat constructor.
  - rewrite parse_loop_eq in H.
    destruct (startswith (py "++ ") line).
    + destruct (declaration line reg) as [r|]; [|discriminate].
      cbn [bind] in H. destruct fd as [|[j l] fd].
      * injection H as <- _. repeat constructor.
      * apply IH in H; [|simpl in L; lia]. destruct H as (A & B & C).
        split; [|auto].
        eapply Forall_impl; [|exact A]. intros mv.
        apply (assembled_from_later [(i, line)]).
    + destruct (is_start line) eqn:St.
      * destruct (Move.init (S m) i line) as [mv0|] eqn:I; [|discriminate].
        cbn [bind] in H. destruct fd as [|[j l] fd];
          [injection H as <- _; repeat constructor|].
        match type of H with body ?k _ _ _ _ = _ =>
          destruct (body_run fd k mv0 j l)
            as (conts & i' & l' & fd' & E & F & W)
        end.
        rewrite E in H. unfold yield_if in H.
        destruct (parse_loop a start_date end_date (S m) i' l' fd' reg)
          as [[ms r]|] eqn:R; [|discriminate].
        cbn [bind] in H. injection H as <- <-.
        destruct (init_numbers _ _ _ _ I) as [Ix Ln].
        destruct (add_numbers (map snd conts) mv0) as [Ix' Ln'].
        assert (Mine : assembled_from ((i, line) :: (j, l) :: fd)
                         (fold_left Move.add (map snd conts) mv0)).
        { destruct W as [[W1 W2] | [W1 W2]].
          - exists [], line, conts, ((i', l') :: fd'), mv0.
            rewrite Ix', Ln', Ix, Ln. repeat split; auto.
            now rewrite W1.
          - exists [], line, conts, [], mv0.
            rewrite Ix', Ln', Ix, Ln. repeat split; auto.
            + now rewrite W1, app_nil_r.
            + rewrite <- W1. discriminate. }
        assert (Rest : Forall (assembled_from ((i, line) :: (j, l) :: fd)) ms
                       /\ Forall (fun mv => S m < Move.index mv) ms
                       /\ StronglySorted
                            (fun x y => Move.index x < Move.index y) ms).
        { destruct W as [[W1 W2] | [W1 W2]].
          - apply IH in R.
            + destruct R as (A & B & C). split; [|auto].
              eapply Forall_impl; [|exact A]. intros mv Hmv.
              apply (assembled_from_later ((i, line) :: conts)) in Hmv.
              rewrite W1. exact Hmv.
            + apply (f_equal (@List.length _)) in W1.
              rewrite length_app in W1. simpl in W1, L. lia.
          - subst fd'. apply parse_loop_last in R. subst ms.
            repeat constructor. }
        destruct Rest as (A & B & C).
        destruct (filter a start_date end_date _).
        -- split; [constructor; auto|]. split.
           ++ constructor; [lia|].
              eapply Forall_impl; [|exact B]. intros; simpl in *; lia.
           ++ constructor; [exact C|].
              eapply Forall_impl; [|exact B]. intros; simpl in *; lia.
        -- split; [exact A|]. split; [|exact C].
           eapply Forall_impl; [|exact B]. intros; simpl in *; lia.
      * destruct fd as [|[j l] fd].
        -- injection H as <- _. repeat constructor.
        -- apply IH in H; [|simpl in L; lia]. destruct H as (A & B & C).
           split; [|auto].
           eapply Forall_impl; [|exact A]. intros mv.
           apply (assembled_from_later [(i, line)]).
Qed.

(** X5.  Every record the parser emits is made of a line of the iterator
    that starts with four digits and of the lines after it up to the next
    such line or to the end: it is that line read by [Move.__init__], under
    its number in the file, with those lines added in their order.  The
    header line is always followed by a line: a transaction that stands
    alone on the last line is not emitted. *)
Theorem parse_emits_assembled_records (reg : registry) moves reg' :
  parse a start_date end_date reg = Ok (moves, reg') ->
  Forall (assembled_from (iterator a)) moves.
Proof.
  unfold parse. destruct (iterator a) as [|[i line] fd]; [discriminate|].
  intros H. now apply (parse_loop_provenance (List.length fd)) in H.
Qed.

(** X6.  The index of a record counts the header lines read so far, from 1:
    the records come out of the parser with strictly increasing indices,
    whatever the filter lets through. *)
Theorem parse_indices_increase (reg : registry) moves reg' :
  parse a start_date end_date reg = Ok (moves, reg') ->
  Forall (fun mv => 1 <= Move.index mv) moves
  /\ StronglySorted (fun x y => Move.index x < Move.index y) moves.
Proof.
  unfold parse. destruct (iterator a) as [|[i line] fd]; [discriminate|].
  intros H. apply (parse_loop_provenance (List.length fd)) in H; [|lia].
  destruct H as (_ & B & C). split; [|exact C].
  eapply Forall_impl; [|exact B]. intros; simpl in *; lia.
Qed.

End Provenance.

(** ** The order of the records *)

Lemma datetime_lt_iff (a b : datetime) :
  datetime_lt a b = true <->
  (year a < year b
   \/ (year a = year b
       /\ (month a < month b
           \/ (month a = month b
               /\ (day a < day b \/ (day a = day b /\ tod a < tod b))))))%N.
Proof.
  unfold datetime_lt, datetime_cmp.
  destruct (N.compare_spec (year a) (year b));
    destruct (N.compare_spec (month a) (month b));
    destruct (N.compare_spec (day a) (day b));
    destruct (N.compare_spec (tod a) (tod b));
    split; intros; try discriminate; try reflexivity; lia.
Qed.

Lemma datetime_le_not_lt (a b : datetime) :
  datetime_le a b = negb (datetime_lt b a).
Proof.
  unfold datetime_le, datetime_lt, datetime_cmp.
  rewrite (N.compare_antisym (year a) (year b)),
          (N.compare_antisym (month a) (month b)),
          (N.compare_antisym (day a) (day b)),
          (N.compare_antisym (tod a) (tod b)).
  destruct (year a ?= year b)%N; simpl; try reflexivity.
  destruct (month a ?= month b)%N; simpl; try reflexivity.
  destruct (day a ?= day b)%N; simpl; try reflexivity.
  destruct (tod a ?= tod b)%N; reflexivity.
Qed.

Lemma datetime_lt_false (a b : datetime) :
  datetime_lt a b = false <-> ~ datetime_lt a b = true.
Proof. destruct (datetime_lt a b); split; congruence. Qed.

Lemma not_after_refl (a : Move.t) : not_after a a.
Proof.
  unfold not_after, Move.lt. apply datetime_lt_false.
  rewrite datetime_lt_iff. lia.
Qed.

Lemma not_after_trans (a b c : Move.t) :
  not_after a b -> not_after b c -> not_after a c.
Proof.
  unfold not_after, Move.lt. rewrite !datetime_lt_false, !datetime_lt_iff.
  lia.
Qed.

Lemma lt_not_after (a b : Move.t) : Move.lt a b = true -> not_after a b.
Proof.
  unfold not_after, Move.lt. rewrite datetime_lt_false, !datetime_lt_iff.
  lia.
Qed.

Lemma insert_head (x y : Move.t) (l : list Move.t) :
  HdRel not_after y l -> not_after y x ->
  HdRel not_after y (MovesFile.insert x l).
Proof.
  intros H R. destruct l as [|z l]; simpl; [now constructor|].
  inversion H; subst. destruct (Move.lt z x); now constructor.
Qed.

Lemma insert_sorted (x : Move.t) (l : list Move.t) :
  Sorted not_after l -> Sorted not_after (MovesFile.insert x l).
Proof.
  induction l as [|y l IH]; intros S; simpl; [repeat constructor|].
  inversion S as [|? ? Sl Hy]; subst.
  destruct (Move.lt y x) eqn:E.
  - constructor; [now apply IH|].
    apply insert_head; [exact Hy | now apply lt_not_after].
  - constructor; [exact S|]. constructor. exact E.
Qed.

Lemma sorted_is_sorted (l : list Move.t) : Sorted not_after (MovesFile.sorted l).
Proof.
  induction l as [|x l IH]; simpl; [constructor | now apply insert_sorted].
Qed.

Lemma sorted_keeps_sorted (l : list Move.t) :
  Sorted not_after l -> MovesFile.sorted l = l.
Proof.
  induction l as [|x l IH]; intros S; [reflexivity|]. simpl.
  inversion S as [|? ? Sl Hx]; subst. rewrite (IH Sl).
  destruct l as [|y l]; [reflexivity|].
  inversion Hx as [|? ? R]; subst. simpl. unfold not_after in R.
  now rewrite R.
Qed.

(** X7.  [sorted] puts the records in the order of their dates and keeps all
    of them; records that are in that order already, those of the same date
    among them, stay as they are, so that sorting twice is sorting once. *)
Theorem sorted_by_date (l : list Move.t) :
  Sorted not_after (MovesFile.sorted l)
  /\ Permutation (MovesFile.sorted l) l
  /\ (Sorted not_after l -> MovesFile.sorted l = l)
  /\ MovesFile.sorted (MovesFile.sorted l) = MovesFile.sorted l.
Proof.
  split; [apply sorted_is_sorted|]. split; [apply sorted_perm|].
  split; [apply sorted_keeps_sorted|].
  apply sorted_keeps_sorted, sorted_is_sorted.
Qed.

Lemma sorted_by_date_witness :
  let a := Move.mk 1 1 (mkdatetime 2020 1 15 0) (mkDecimal true 4250 (-2))
                   (py "food") (py "P") (py "CB") None [] in
  let b := Move.mk 2 3 (mkdatetime 2020 1 15 0) (mkDecimal false 1 0)
                   (py "gift") (py "X") (py "TR") None [] in
  MovesFile.sorted [a; b] = [a; b].
Proof.
  intros a b. destruct (sorted_by_date [a; b]) as (_ & _ & H & _).
  apply H. repeat constructor.
Defined.

Lemma strongly_sorted_last (l : list Move.t) (d : Move.t) :
  StronglySorted not_after l ->
  Forall (fun mv => not_after mv (last l d)) l.
Proof.
  induction 1 as [|x l S IH F]; [constructor|].
  destruct l as [|y l].
  - constructor; [apply not_after_refl | constructor].
  - constructor.
    + change (last (x :: y :: l) d) with (last (y :: l) d).
      rewrite Forall_forall in F. apply F.
      destruct (exists_last (l := y :: l)) as (l' & z & E); [discriminate|].
      rewrite E, last_last. apply in_or_app. right. now left.
    + change (last (x :: y :: l) d) with (last (y :: l) d).
      exact IH.
Qed.

Lemma init_moves_sorted (now : datetime) (a : MovesFile.args)
  (self : MovesFile.t) :
  MovesFile.init now a = Ok self ->
  exists parsed reg,
    MovesFile.parse a (MovesFile.start_date self) (MovesFile.end_date self)
                    (MovesFile.mkreg [] []) = Ok (parsed, reg)
    /\ MovesFile.moves self = MovesFile.sorted parsed.
Proof.
  unfold MovesFile.init.
  destruct (MovesFile.dates now a) as [[s e]|]; [|discriminate].
  cbn [bind].
  destruct (MovesFile.parse a s e (MovesFile.mkreg [] []))
    as [[ms reg]|] eqn:P; [|discriminate].
  cbn [bind].
  destruct (MovesFile.aggregate _ _ _ _ _) as [[[bi bo] ac]|]; [|discriminate].
  cbn [bind]. intros [= <-]. cbn. eauto.
Qed.

(** X8.  After [MovesFile(args)] the records are in the order of their
    dates.  When there is a record, the banner of [title] names the dates of
    the first and of the last of them, which are the earliest and the latest
    date of all; with no record [title] raises (IndexError). *)
Theorem title_names_first_and_last
  (now : datetime) (a : MovesFile.args) (self : MovesFile.t) :
  MovesFile.init now a = Ok self ->
  Sorted not_after (MovesFile.moves self)
  /\ (MovesFile.moves self = [] -> MovesFile.title self = None)
  /\ (MovesFile.moves self <> [] ->
      exists first final,
        In first (MovesFile.moves self) /\ In final (MovesFile.moves self)
        /\ MovesFile.title self
           = Some (banner (Move.date first) (Move.date final))
        /\ Forall (fun mv =>
                     datetime_le (Move.date first) (Move.date mv) = true
                     /\ datetime_le (Move.date mv) (Move.date final) = true)
                  (MovesFile.moves self)).
Proof.
  intros H. destruct (init_moves_sorted _ _ _ H) as (ms & reg & _ & E).
  assert (S : Sorted not_after (MovesFile.moves self))
    by (rewrite E; apply sorted_is_sorted).
  split; [exact S|]. unfold MovesFile.title.
  destruct (MovesFile.moves self) as [|x l] eqn:M.
  - split; [reflexivity | congruence].
  - split; [discriminate|]. intros _.
    exists x, (last (x :: l) x). split; [now left|]. split.
    + destruct (exists_last (l := x :: l)) as (l' & z & ->); [discriminate|].
      rewrite last_last. apply in_or_app. right. now left.
    + split; [reflexivity|].
      apply Sorted_StronglySorted in S;
        [|intros u v w; apply not_after_trans].
      pose proof (strongly_sorted_last _ x S) as L.
      inversion S as [|? ? _ F]; subst.
      assert (F' : Forall (not_after x) (x :: l))
        by (constructor; [apply not_after_refl | exact F]).
      rewrite Forall_forall in *. intros mv I.
      specialize (L mv I). specialize (F' mv I).
      unfold not_after, Move.lt in *.
      rewrite !datetime_le_not_lt, L, F'. auto.
Qed.

(** ** The errors of [MovesFile(args)] *)

Lemma init_raises (m i : nat) (line : pystr) (e : exn) :
  Move.init m i line = Raise e -> e = ValueError \/ e = InvalidOperation.
Proof.
  unfold Move.init.
  destruct (split_on SP (strip line))
    as [|ds [|am [|k [|c [|st [|? ?]]]]]]; try (intros [= <-]; now left).
  destruct (strptime ds); [|intros [= <-]; now left].
  destruct (Decimal_of_str (rstrip_chars [EURO] am));
    [discriminate | intros [= <-]; now right].
Qed.

Lemma declaration_raises (line : pystr) (reg : MovesFile.registry) (e : exn) :
  MovesFile.declaration line reg = Raise e ->
  e = ValueError \/ e = InvalidOperation.
Proof.
  unfold MovesFile.declaration.
  destruct (tl (split_ws line)) as [|ac [|ks [|am [|? ?]]]];
    try (intros [= <-]; now left).
  destruct (Decimal_of_str am); [discriminate | intros [= <-]; now right].
Qed.

Lemma parse_loop_raises (a : MovesFile.args) (start_date end_date : datetime)
  (n : nat) :
  forall fd, List.length fd <= n ->
  forall m i line reg e,
    MovesFile.parse_loop a start_date end_date m i line fd reg = Raise e ->
    e = ValueError \/ e = InvalidOperation.
Proof.
  induction n as [|n IH]; intros fd L m i line reg e;
    rewrite parse_loop_eq;
    (destruct (startswith (py "++ ") line);
     [destruct (MovesFile.declaration line reg) eqn:D;
      [|intros [= <-]; now apply declaration_raises in D]
     |destruct (MovesFile.is_start line);
      [destruct (Move.init (S m) i line) as [mv|] eqn:I;
       [|intros [= <-]; now apply init_raises in I]|]]);
    cbn [bind]; destruct fd as [|[j l] fd]; try discriminate;
    try (simpl in L; lia); try (apply IH; simpl in L; lia).
  match goal with |- MovesFile.body ?k _ _ _ _ = _ -> _ =>
    destruct (body_exit k fd mv j l)
      as (mv' & i' & l' & fd' & E & L')
  end.
  rewrite E. unfold MovesFile.yield_if.
  destruct (MovesFile.parse_loop a start_date end_date (S m) i' l' fd' reg)
    as [[ms r]|] eqn:R; [discriminate|].
  cbn [bind]. intros [= <-].
  apply IH in R; [exact R | simpl in L; lia].
Qed.

Lemma aggregate_raises (kinds : dict pystr) (moves : list Move.t) :
  forall bin bout accounts e,
    (forall k account, dict_get k kinds = Some account ->
                       dict_has account accounts = true) ->
    MovesFile.aggregate kinds moves bin bout accounts = Raise e ->
    accounts <> []
    /\ exists mv, In mv moves /\ kind_unknown kinds mv
                  /\ e = MovesFile.unknown_kind (Move.kind mv).
Proof.
  induction moves as [|mv moves IH]; intros bin bout accounts e Q;
    [discriminate|].
  rewrite aggregate_cons. cbv zeta.
  destruct accounts as [|p accounts].
  - intros H.
    destruct (aggregate_without_accounts kinds moves
                (if is_income mv
                 then Balance.accumulate (Move.category mv) (Move.amount mv) bin
                 else bin)
                (if is_income mv then bout
                 else Balance.accumulate (Move.category mv) (Move.amount mv)
                        bout)) as (b1 & b2 & E).
    rewrite E in H. discriminate H.
  - intros H. split; [discriminate|]. revert H.
    destruct (dict_get (Move.kind mv) kinds) as [account|] eqn:K.
    + pose proof (Q _ _ K) as Has. unfold dict_has in Has.
      destruct (dict_get account (p :: accounts)) as [old|]; [|discriminate].
      cbn [or_raise bind]. intros R. apply IH in R.
      * destruct R as (_ & mv' & I & U & E). exists mv'. split; [now right|].
        auto.
      * intros k acc Hk. apply dict_has_set. eauto.
    + intros [= <-]. exists mv. split; [now left|]. auto.
Qed.



(** ** What the aggregation books *)

Lemma eqb_str_sym (a b : pystr) : eqb_str a b = eqb_str b a.
Proof.
  destruct (eqb_str a b) eqn:E.
  - apply eqb_str_eq in E. subst. symmetry. apply eqb_str_refl.
  - symmetry. apply eqb_str_neq. apply eqb_str_neq in E. congruence.
Qed.

Lemma accumulate_get (c c' : pystr) (amount : Decimal) (b : Balance.t) :
  dict_get c' (Balance.items (Balance.accumulate c amount b))
  = if eqb_str c' c
    then Some (match dict_get c (Balance.items b) with
               | Some old => Decimal_add old amount
               | None => amount
               end)
    else dict_get c' (Balance.items b).
Proof. unfold Balance.accumulate. cbn [Balance.items]. apply dict_get_set. Qed.

Lemma accumulate_frame (c : pystr) (amount : Decimal) (b : Balance.t) :
  Balance.title (Balance.accumulate c amount b) = Balance.title b
  /\ Balance.coef (Balance.accumulate c amount b) = Balance.coef b.
Proof. split; reflexivity. Qed.

Section Booking.

Import MovesFile.

Variable kinds : dict pystr.

(** One turn of the loop: the balances after the record. *)
Lemma aggregate_step mv moves bin bout accounts bin' bout' accounts' :
  aggregate kinds (mv :: moves) bin bout accounts = Ok (bin', bout', accounts') ->
  exists acc,
    aggregate kinds moves
      (if is_income mv
       then Balance.accumulate (Move.category mv) (Move.amount mv) bin
       else bin)
      (if is_income mv then bout
       else Balance.accumulate (Move.category mv) (Move.amount mv) bout)
      acc = Ok (bin', bout', accounts')
    /\ match accounts with
       | [] => acc = []
       | _ :: _ =>
           exists account old,
             dict_get (Move.kind mv) kinds = Some account
             /\ dict_get account accounts = Some old
             /\ acc = dict_set account (Decimal_add old (Move.amount mv))
                               accounts
       end.
Proof.
  rewrite aggregate_cons. cbv zeta. intros H.
  destruct accounts as [|p accounts]; [eauto|].
  destruct (dict_get (Move.kind mv) kinds) as [account|]; [|discriminate].
  destruct (dict_get account (p :: accounts)) as [old|] eqn:G; [|discriminate].
  cbn [or_raise bind] in H. eexists. split; [exact H|].
  exists account, old. auto.
Qed.

Lemma aggregate_frame (moves : list Move.t) :
  forall bin bout accounts bin' bout' accounts',
    aggregate kinds moves bin bout accounts = Ok (bin', bout', accounts') ->
    Balance.title bin' = Balance.title bin
    /\ Balance.title bout' = Balance.title bout.
Proof.
  induction moves as [|mv moves IH]; intros bin bout accounts bin' bout' acc'.
  - simpl. intros [= <- <- <-]. auto.
  - intros H. apply aggregate_step in H as (acc & H & _).
    apply IH in H as [A B]. destruct (is_income mv); auto.
Qed.

Lemma filter_bucket_cons (b : bool) (c : pystr) (mv : Move.t)
  (moves : list Move.t) :
  List.filter (in_bucket b c) (mv :: moves)
  = if Bool.eqb (is_income mv) b && eqb_str c (Move.category mv)
    then mv :: List.filter (in_bucket b c) moves
    else List.filter (in_bucket b c) moves.
Proof.
  cbn [List.filter]. unfold in_bucket at 1.
  now rewrite (eqb_str_sym (Move.category mv) c).
Qed.

Lemma aggregate_buckets (moves : list Move.t) :
  forall bin bout accounts bin' bout' accounts',
    aggregate kinds moves bin bout accounts = Ok (bin', bout', accounts') ->
    forall c,
      ((entry_value (dict_get c (Balance.items bin'))
        == entry_value (dict_get c (Balance.items bin))
           + value_sum (map Move.amount
                          (List.filter (in_bucket true c) moves)))%Q
       /\ (dict_get c (Balance.items bin') = None <->
           dict_get c (Balance.items bin) = None
           /\ List.filter (in_bucket true c) moves = []))
      /\ ((entry_value (dict_get c (Balance.items bout'))
           == entry_value (dict_get c (Balance.items bout))
              + value_sum (map Move.amount
                             (List.filter (in_bucket false c) moves)))%Q
          /\ (dict_get c (Balance.items bout') = None <->
              dict_get c (Balance.items bout) = None
              /\ List.filter (in_bucket false c) moves = [])).
Proof.
  induction moves as [|mv moves IH]; intros bin bout accounts bin' bout' acc'.
  - simpl. intros [= <- <- <-] c. repeat split; try ring; tauto.
  - intros H c. apply aggregate_step in H as (acc & H & _).
    destruct (IH _ _ _ _ _ _ H c) as [[I1 I2] [O1 O2]]. clear IH H.
    rewrite !filter_bucket_cons.
    destruct (is_income mv) eqn:Inc;
      destruct (eqb_str c (Move.category mv)) eqn:Ec;
      cbn [Bool.eqb andb map value_sum].
    + rewrite accumulate_get, Ec in I1. rewrite accumulate_get, Ec in I2.
      split; [|split; assumption]. split.
      * rewrite I1. apply eqb_str_eq in Ec. subst c.
        destruct (dict_get (Move.category mv) (Balance.items bin));
          cbn [entry_value]; rewrite ?value_add; ring.
      * split; [intros N; apply I2 in N as [N _]; discriminate N|].
        intros [_ N]. discriminate N.
    + rewrite accumulate_get, Ec in I1. rewrite accumulate_get, Ec in I2.
      repeat split; tauto.
    + rewrite accumulate_get, Ec in O1. rewrite accumulate_get, Ec in O2.
      split; [split; assumption|]. split.
      * rewrite O1. apply eqb_str_eq in Ec. subst c.
        destruct (dict_get (Move.category mv) (Balance.items bout));
          cbn [entry_value]; rewrite ?value_add; ring.
      * split; [intros N; apply O2 in N as [N _]; discriminate N|].
        intros [_ N]. discriminate N.
    + rewrite accumulate_get, Ec in O1. rewrite accumulate_get, Ec in O2.
      repeat split; tauto.
Qed.


Lemma aggregate_accounts (moves : list Move.t) :
  forall bin bout accounts bin' bout' accounts',
    aggregate kinds moves bin bout accounts = Ok (bin', bout', accounts') ->
    forall account,
      match dict_get account accounts with
      | Some d0 =>
          exists d,
            dict_get account accounts' = Some d
            /\ (Decimal_value d
                == Decimal_value d0
                   + value_sum (map Move.amount
                                  (List.filter (feeds kinds account) moves)))%Q
      | None => dict_get account accounts' = None
      end.
Proof.
  induction moves as [|mv moves IH]; intros bin bout accounts bin' bout' acc'.
  - simpl. intros [= <- <- <-] account.
    destruct (dict_get account accounts) as [d0|]; [|reflexivity].
    exists d0. split; [reflexivity | ring].
  - intros H account. apply aggregate_step in H as (acc & H & W).
    specialize (IH _ _ _ _ _ _ H account).
    destruct accounts as [|p accounts].
    + subst acc. exact IH.
    + destruct W as (target & old & K & G & ->).
      rewrite dict_get_set in IH. cbn [List.filter]. unfold feeds at 1.
      rewrite K, (eqb_str_sym target account).
      destruct (eqb_str account target) eqn:E.
      * apply eqb_str_eq in E. subst target. rewrite G.
        destruct IH as (d & D & V). exists d. split; [exact D|].
        cbn [map value_sum]. rewrite V, value_add. ring.
      * exact IH.
Qed.


Lemma income_sum_sign (moves : list Move.t) :
  (0 <= value_sum (map Move.amount (List.filter is_income moves)))%Q
  /\ (value_sum (map Move.amount
                   (List.filter (fun mv => negb (is_income mv)) moves))
      <= 0)%Q.
Proof.
  induction moves as [|mv moves [I O]]; [split; apply Qle_refl|].
  cbn [List.filter]. destruct (is_income mv) eqn:E; cbn [negb map value_sum].
  - split; [|exact O]. apply gt0_value in E.
    apply Qlt_le_weak in E.
    rewrite <- (Qplus_0_l 0). now apply Qplus_le_compat.
  - split; [exact I|].
    assert (N : (Decimal_value (Move.amount mv) <= 0)%Q).
    { apply Qnot_lt_le. intros L. apply gt0_value in L.
      unfold is_income in E. congruence. }
    rewrite <- (Qplus_0_l 0). now apply Qplus_le_compat.
Qed.

End Booking.

Lemma init_inv (now : datetime) (a : MovesFile.args) (self : MovesFile.t) :
  MovesFile.init now a = Ok self ->
  exists parsed reg,
    MovesFile.dates now a
    = Ok (MovesFile.start_date self, MovesFile.end_date self)
    /\ MovesFile.parse a (MovesFile.start_date self) (MovesFile.end_date self)
                       (MovesFile.mkreg [] []) = Ok (parsed, reg)
    /\ MovesFile.moves self = MovesFile.sorted parsed
    /\ MovesFile.self_kinds self = MovesFile.kinds reg
    /\ MovesFile.aggregate (MovesFile.kinds reg) (MovesFile.sorted parsed)
         (Balance.init true) (Balance.init false) (MovesFile.accounts reg)
       = Ok (MovesFile.balance_in self, MovesFile.balance_out self,
             MovesFile.self_accounts self).
Proof.
  unfold MovesFile.init.
  destruct (MovesFile.dates now a) as [[s e]|]; [|discriminate].
  cbn [bind].
  destruct (MovesFile.parse a s e (MovesFile.mkreg [] []))
    as [[ms reg]|] eqn:P; [|discriminate].
  cbn [bind].
  destruct (MovesFile.aggregate _ _ _ _ _) as [[[bi bo] ac]|] eqn:A;
    [|discriminate].
  cbn [bind]. intros [= <-]. cbn. exists ms, reg. auto.
Qed.


(** X13.  With the flags [-p] and [-x] both set no record gets through the
    filter: a status is not 'P' and 'X' at once. *)
Theorem filter_pending_and_cleared
  (i : pystr) (s e g period : option pystr) (start_date end_date : datetime)
  (move : Move.t) :
  MovesFile.filter (MovesFile.mkargs i s e true true g period)
                   start_date end_date move = false.
Proof.
  unfold MovesFile.filter.
  cbn [MovesFile.arg_p MovesFile.arg_x MovesFile.arg_g andb].
  destruct (_ && negb (contains _ _)); [reflexivity|].
  destruct (eqb_str (upper (Move.status move)) (py "P")) eqn:P;
    [|reflexivity].
  apply eqb_str_eq in P. rewrite P. reflexivity.
Qed.

(** ** The text of a record *)

Lemma template_shape (mv : Move.t) :
  Move.template mv
  = NL :: header_line mv ++ NL :: py "    "
      ++ match Move.description mv with Some d => d | None => py "None" end
      ++ NL :: py "    " ++ Move.comment mv.
Proof.
  unfold Move.template, header_line. cbn [join].
  rewrite <- !app_assoc. reflexivity.
Qed.

Lemma init_fresh (m i : nat) (line : pystr) (mv : Move.t) :
  Move.init m i line = Ok mv ->
  Move.description mv = None /\ Move.comment mv = [].
Proof.
  unfold Move.init.
  destruct (split_on SP (strip line))
    as [|ds [|am [|k [|c [|st [|? ?]]]]]]; try discriminate.
  destruct (strptime ds); [|discriminate].
  destruct (Decimal_of_str (rstrip_chars [EURO] am)); [|discriminate].
  cbn [or_raise bind]. intros [= <-]. auto.
Qed.

Lemma add_all_description_fresh (lines : list pystr) :
  forall mv,
    Move.description mv = None ->
    Move.description (fold_left Move.add lines mv)
    = option_map strip (hd_error (List.filter nonblank lines)).
Proof.
  induction lines as [|l lines IH]; intros mv D; [exact D|]. simpl.
  destruct (nonblank l) eqn:B.
  - destruct (add_first mv l B D) as [D' _].
    now rewrite (add_all_description_set _ _ _ D').
  - rewrite (add_blank _ _ B). now apply IH.
Qed.

Lemma header_line_same (a b : Move.t) :
  same_header a b -> header_line a = header_line b.
Proof.
  intros (A & B & C & D & E). unfold header_line. now rewrite A, B, C, D, E.
Qed.

Lemma strip_framed (h rest : pystr) (x : char) (tail : pystr)
  (c : char) (s : pystr) :
  h = c :: s -> isspace c = false -> isspace x = false ->
  forallb isspace tail = true ->
  strip (NL :: h ++ rest ++ x :: tail) = h ++ rest ++ [x].
Proof.
  intros E C X T. unfold strip, strip_with, lstrip_with.
  assert (R : rstrip_with isspace (NL :: h ++ rest ++ x :: tail)
              = NL :: h ++ rest ++ [x]).
  { replace (NL :: h ++ rest ++ x :: tail)
      with ((NL :: h ++ rest ++ [x]) ++ tail)
      by (simpl; rewrite <- !app_assoc; reflexivity).
    rewrite (rstrip_app_drop _ _ _ T).
    replace (NL :: h ++ rest ++ [x]) with ((NL :: h ++ rest) ++ [x])
      by (simpl; rewrite <- app_assoc; reflexivity).
    apply rstrip_snoc_keep, X. }
  rewrite R, E. cbn [app dropwhile]. rewrite C.
  change (isspace NL) with true. reflexivity.
Qed.

Lemma text_ends (d : option pystr) :
  (forall l, d = Some l -> nonblank l = true) ->
  exists t x,
    match d with Some l => strip l | None => py "None" end = t ++ [x]
    /\ isspace x = false.
Proof.
  intros H. destruct d as [l|].
  - specialize (H l eq_refl). unfold nonblank in H.
    destruct (strip_ends isspace l) as [E | (t & x & E & X)];
      fold (strip l) in E.
    + rewrite E in H. discriminate H.
    + exists t, x. auto.
  - exists (py "Non"), 101%N. split; reflexivity.
Qed.



(** ** Runs of the theorems above on a ledger *)

Lemma parse_emits_assembled_records_witness :
  let a := MovesFile.mkargs (py "2020/01/15 -42.50€ CB food P
    lunch
2020/01/16 10€ TR gift X
") None None false false None None in
  exists moves,
    MovesFile.parse a (mkdatetime 1900 1 1 0) (mkdatetime 2026 11 3 0)
                    (MovesFile.mkreg [] [])
    = Ok (moves, MovesFile.mkreg [] [])
    /\ List.length moves = 1
    /\ Forall (assembled_from (MovesFile.iterator a)) moves.
Proof.
  intros a. eexists. split; [vm_compute; reflexivity|].
  split; [reflexivity|].
  apply (parse_emits_assembled_records a (mkdatetime 1900 1 1 0)
           (mkdatetime 2026 11 3 0) (MovesFile.mkreg [] []) _
           (MovesFile.mkreg [] [])).
  vm_compute. reflexivity.
Defined.

Lemma parse_indices_increase_witness :
  let a := MovesFile.mkargs (py "2020/01/15 -42.50€ CB food P
    lunch
2031/01/16 10€ TR gift X
    too late
2020/01/17 -3€ CB food P
    bread
") None None false false None None in
  exists moves,
    MovesFile.parse a (mkdatetime 1900 1 1 0) (mkdatetime 2026 11 3 0)
                    (MovesFile.mkreg [] [])
    = Ok (moves, MovesFile.mkreg [] [])
    /\ map Move.index moves = [1; 3]
    /\ StronglySorted (fun x y => Move.index x < Move.index y) moves.
Proof.
  intros a. eexists. split; [vm_compute; reflexivity|].
  split; [reflexivity|].
  apply (parse_indices_increase a (mkdatetime 1900 1 1 0)
           (mkdatetime 2026 11 3 0) (MovesFile.mkreg [] []) _
           (MovesFile.mkreg [] [])).
  vm_compute. reflexivity.
Defined.

Lemma title_names_first_and_last_witness :
  let a := MovesFile.mkargs (py "2020/03/01 -3€ CB food P
    bread
2020/01/15 -42.50€ CB food P
    lunch
") None None false false None None in
  exists self,
    MovesFile.init (mkdatetime 2026 11 3 0) a = Ok self
    /\ map Move.index (MovesFile.moves self) = [2; 1]
    /\ Sorted not_after (MovesFile.moves self).
Proof.
  intros a. eexists. split; [vm_compute; reflexivity|].
  split; [reflexivity|].
  eapply (title_names_first_and_last (mkdatetime 2026 11 3 0) a).
  vm_compute. reflexivity.
Defined.




(** ** The end of the input *)

Lemma last_cons_default {A} (x d : A) (l : list A) :
  last (x :: l) d = last l x.
Proof.
  revert x d. induction l as [|y l IH]; intros x d; [reflexivity|].
  change (last (x :: y :: l) d) with (last (y :: l) d).
  now rewrite (IH y d), (IH y x).
Qed.

Lemma body_to_the_end (fd : list (nat * pystr)) :
  forall k move i line,
    Forall (fun c => MovesFile.is_start (snd c) = false) ((i, line) :: fd) ->
    MovesFile.body k move i line fd
    = k (fold_left Move.add (map snd ((i, line) :: fd)) move)
        (fst (last fd (i, line))) (snd (last fd (i, line))) [].
Proof.
  induction fd as [|[j l] fd IH]; intros k move i line F;
    inversion F as [|? ? S F']; subst; cbn [snd] in S.
  - simpl. now rewrite S.
  - cbn [MovesFile.body]. rewrite S. rewrite (IH _ _ _ _ F').
    now rewrite (last_cons_default (j, l) (i, line) fd).
Qed.

(** X15.  A transaction whose continuation lines run to the end of the input
    is closed there: all these lines are added to it, and it is emitted if
    it gets through the filter.  The last line is then looked at once more
    by the outer loop: if it starts with '++ ' it is also taken as a
    declaration and its account is registered (or its error raised). *)
Theorem record_at_end_of_input
  (a : MovesFile.args) (start_date end_date : datetime) (m i : nat)
  (header : pystr) (c0 : nat * pystr) (conts : list (nat * pystr))
  (reg : MovesFile.registry) (mv0 : Move.t) :
  MovesFile.is_start header = true ->
  Move.init (S m) i header = Ok mv0 ->
  Forall (fun c => MovesFile.is_start (snd c) = false) (c0 :: conts) ->
  let mv := fold_left Move.add (map snd (c0 :: conts)) mv0 in
  let final := snd (last conts c0) in
  MovesFile.parse_loop a start_date end_date m i header (c0 :: conts) reg
  = do reg' <- (if startswith (py "++ ") final
                then MovesFile.declaration final reg else Ok reg);
    Ok (if MovesFile.filter a start_date end_date mv then [mv] else [], reg').
Proof.
  intros S I F mv final. rewrite parse_loop_eq.
  assert (D : startswith (py "++ ") header = false).
  { destruct (startswith (py "++ ") header) eqn:E; [|reflexivity].
    apply declaration_line_shape in E as [E _]. congruence. }
  rewrite D, S, I. cbn [bind]. destruct c0 as [j l].
  rewrite (body_to_the_end conts _ mv0 j l F). fold mv. fold final.
  assert (Fin : MovesFile.is_start final = false).
  { unfold final. rewrite Forall_forall in F. apply (F (last conts (j, l))).
    destruct conts as [|p conts]; [now left|].
    destruct (exists_last (l := p :: conts)) as (l' & z & E); [discriminate|].
    rewrite E, last_last. right. apply in_or_app. right. now left. }
  rewrite parse_loop_eq, Fin. unfold MovesFile.yield_if.
  destruct (startswith (py "++ ") final).
  - destruct (MovesFile.declaration final reg); reflexivity.
  - reflexivity.
Qed.

Lemma record_at_end_of_input_witness :
  MovesFile.parse
    (MovesFile.mkargs (py "2020/01/15 -10.00€ CB food P
    bread
++ bank (CB,TR): 1000.00
") None None false false None None)
    (mkdatetime 1900 1 1 0) (mkdatetime 2026 11 3 0) (MovesFile.mkreg [] [])
  = Ok ([Move.mk 1 1 (mkdatetime 2020 1 15 0) (mkDecimal true 1000 (-2))
                 (py "food") (py "P") (py "CB") (Some (py "bread"))
                 (py "++ bank (CB,TR): 1000.00" ++ [NL])],
        MovesFile.mkreg [(py "bank", mkDecimal false 100000 (-2))]
                        [(py "CB", py "bank"); (py "TR", py "bank")]).
Proof.
  unfold MovesFile.parse.
  change (MovesFile.iterator _)
    with ((1, py "2020/01/15 -10.00€ CB food P" ++ [NL])
          :: [(2, py "    bread" ++ [NL]);
              (3, py "++ bank (CB,TR): 1000.00" ++ [NL])]).
  cbv iota beta.
  rewrite (record_at_end_of_input _ _ _ 0 1 _ _ _ _
             (Move.mk 1 1 (mkdatetime 2020 1 15 0) (mkDecimal true 1000 (-2))
                      (py "food") (py "P") (py "CB") None [])).
  - vm_compute. reflexivity.
  - vm_compute. reflexivity.
  - vm_compute. reflexivity.
  - repeat first [apply Forall_nil
                 | apply Forall_cons; [vm_compute; reflexivity|]].
Defined.

(** ** Iterating over a balance *)

Lemma str_lt_asym (a : pystr) :
  forall b, str_lt a b = true -> str_lt b a = false.
Proof.
  induction a as [|x a IH]; intros [|y b]; simpl; try congruence.
  destruct (N.ltb_spec x y), (N.ltb_spec y x), (N.eqb_spec x y),
    (N.eqb_spec y x); try lia; try congruence; auto.
Qed.

Lemma item_lt_asym (p q : Decimal * pystr) :
  Balance.item_lt p q = true -> Balance.item_lt q p = false.
Proof.
  unfold Balance.item_lt, Decimal_compare.
  rewrite (Z.min_comm (dexp (fst q))), (Z.compare_antisym _ (scaled _ (fst q))).
  destruct (scaled _ (fst p) ?= scaled _ (fst q))%Z; simpl;
    try congruence. apply str_lt_asym.
Qed.

Lemma insert_desc_head (x y : Decimal * pystr) (l : list (Decimal * pystr)) :
  HdRel (fun p q => Balance.item_lt p q = false) y l ->
  Balance.item_lt y x = false ->
  HdRel (fun p q => Balance.item_lt p q = false) y (Balance.insert_desc x l).
Proof.
  intros H R. destruct l as [|z l]; simpl; [now constructor|].
  inversion H; subst. destruct (Balance.item_lt x z); now constructor.
Qed.

Lemma sorted_reverse_sorted (l : list (Decimal * pystr)) :
  Sorted (fun p q => Balance.item_lt p q = false) (Balance.sorted_reverse l).
Proof.
  induction l as [|x l IH]; simpl; [constructor|].
  induction IH as [|y l' S IH' H]; simpl; [repeat constructor|].
  destruct (Balance.item_lt x y) eqn:E.
  - constructor; [exact IH'|].
    apply insert_desc_head; [exact H | now apply item_lt_asym].
  - constructor; [now constructor|]. now constructor.
Qed.

Lemma insert_desc_perm (x : Decimal * pystr) (l : list (Decimal * pystr)) :
  Permutation (Balance.insert_desc x l) (x :: l).
Proof.
  induction l as [|y l IH]; simpl; [reflexivity|].
  destruct (Balance.item_lt x y); [|reflexivity].
  rewrite IH. apply perm_swap.
Qed.

Lemma sorted_reverse_perm (l : list (Decimal * pystr)) :
  Permutation (Balance.sorted_reverse l) l.
Proof.
  induction l as [|x l IH]; simpl; [reflexivity|].
  rewrite insert_desc_perm. now constructor.
Qed.

Lemma item_not_lt_value (p q : Decimal * pystr) :
  Balance.item_lt p q = false ->
  (Decimal_value (fst q) <= Decimal_value (fst p))%Q.
Proof.
  unfold Balance.item_lt, Decimal_compare. intros H.
  set (e := Z.min (dexp (fst p)) (dexp (fst q))) in *.
  assert (L : (scaled e (fst q) <= scaled e (fst p))%Z).
  { destruct (Z.compare_spec (scaled e (fst p)) (scaled e (fst q)));
      [lia | discriminate | lia]. }
  rewrite <- (value_scaled e (fst p)), <- (value_scaled e (fst q))
    by (unfold e; lia).
  apply Qmult_le_compat_r; [now rewrite <- Zle_Qle|].
  apply Qpower_0_le. discriminate.
Qed.

